(** * The manifest pipeline of generate-loading-screen (src/main.ts)

    A shallow embedding of [addAddonName], [update] and [generateManifest],
    and the properties of the pipeline: validation of the whole batch before
    failing, carry-forward from an existing manifest, per add-on isolation
    of resolver failures, and what a run leaves on disk. *)

From Stdlib Require Import ZArith Ascii.
From stdpp Require Import base option list strings pretty gmap.

Set Warnings "-register-all".

(** ** Values *)

(** A JSON document, as [JSON.parse] returns it and [JSON.stringify] takes
    it.  Numbers are kept to the integers: no add-on field is a number. *)
Inductive json : Type :=
  | JNull
  | JBool (b : bool)
  | JNum (n : Z)
  | JStr (s : string)
  | JArr (items : list json)
  | JObj (members : list (string * json)).

(** Modelled from the spec: the module [./schema] (the type [Addon] and the
    validator [addon]) is not among the sources.  An add-on has an identity
    block with an [id] and a [name], a host object with a [github] or a
    [standalone] entry of connection parameters, and three optional fields
    that the resolvers and the carry-forward step write. *)
Record Package : Type := mkPackage {
  id : string;
  name : string
}.

(** [github h = Some p] says that the key ['github'] is in the host object,
    with value [p].  Nothing in [main.ts] prevents both keys, or neither. *)
Record Host : Type := mkHost {
  github : option json;
  standalone : option json
}.

(** An add-on is modelled by its value.  Every add-on of a batch is a fresh
    object, the result of one call of the validator, and [main.ts] mutates
    no array in place ([addAddonName] assigns a new array), so no two
    add-ons share state. *)
Record Addon : Type := mkAddon {
  package : Package;
  host : Host;
  release : option string;
  prerelease : option string;
  addon_names : option (list string)
}.

Definition set_release (v : option string) (a : Addon) : Addon :=
  mkAddon (package a) (host a) v (prerelease a) (addon_names a).

Definition set_prerelease (v : option string) (a : Addon) : Addon :=
  mkAddon (package a) (host a) (release a) v (addon_names a).

Definition set_addon_names (v : option (list string)) (a : Addon) : Addon :=
  mkAddon (package a) (host a) (release a) (prerelease a) v.

(** ** Exceptions *)

(** What a [throw] carries.  [ZodError] is the validator's error, with one
    message per issue; [SystemError] is what [node:fs] throws for a system
    call on a path, and [DescriptorError] what it throws for a system call
    on a file that is already open, which has no path to name;
    [NotAnError] is a thrown value that is no instance of [Error], given by
    its [String(...)]. *)
Inductive exn : Type :=
  | Error (message : string)
  | TypeError (message : string)
  | SyntaxError (message : string)
  | ZodError (message : string) (errors : list string)
  | SystemError (code description syscall path : string)
  | DescriptorError (code description syscall : string)
  | NotAnError (text : string).

(** [error instanceof Error ? error.message : String(error)] *)
Definition errorMessage (error : exn) : string :=
  match error with
  | Error m | TypeError m | SyntaxError m | ZodError m _ => m
  | SystemError code description syscall path =>
      code +:+ ": " +:+ description +:+ ", " +:+ syscall +:+ " '" +:+ path +:+ "'"
  | DescriptorError code description syscall =>
      code +:+ ": " +:+ description +:+ ", " +:+ syscall
  | NotAnError text => text
  end.

(** [isZodErrorLike] of zod-validation-error. *)
Definition isZodErrorLike (error : exn) : bool :=
  match error with
  | ZodError _ _ => true
  | _ => false
  end.

(** [error.errors] *)
Definition zod_errors (error : exn) : list string :=
  match error with
  | ZodError _ errors => errors
  | _ => []
  end.

(** ** The world a run acts on *)

(** An entry of the file system: a regular file with its text, a directory
    with the names [readdirSync] enumerates, in that order, or an entry
    that exists and that the process may not open. *)
Inductive node : Type :=
  | File (content : string)
  | Dir (names : list string)
  | Denied.

(** What a run emits, in order.  The two [resolve_*] events record the
    calls of the two resolvers, with the add-on as it was passed. *)
Inductive event : Type :=
  | core_error (message : string) (file : option string)
  | core_warning (message : string)
  | console_error (message : string)
  | console_log (message : string)
  | resolve_github (addon : Addon) (params : json)
  | resolve_standalone (addon : Addon) (params : json).

Record World : Type := mkWorld {
  files : gmap string node;
  trace : list event
}.

Definition emit (e : event) (w : World) : World :=
  mkWorld (files w) (trace w ++ [e]).

(** ** The monad of the pipeline: state and exceptions *)

(** A computation returns, throws, or stops at [OutOfType]: it was about to
    store, in a field of an [Addon], a value that the type of the field
    excludes.  The source can reach this only through the unchecked
    annotation [Addon[]] on the result of [JSON.parse]. *)
Inductive outcome (A : Type) : Type :=
  | Returned (a : A)
  | Thrown (error : exn)
  | OutOfType.

Arguments Returned {A} a.
Arguments Thrown {A} error.
Arguments OutOfType {A}.

Definition M (A : Type) : Type := World → outcome A * World.

#[global] Instance M_ret : MRet M := λ A a w, (Returned a, w).

#[global] Instance M_bind : MBind M := λ A B f m w,
  match m w with
  | (Returned a, w') => f a w'
  | (Thrown error, w') => (Thrown error, w')
  | (OutOfType, w') => (OutOfType, w')
  end.

Definition throw {A} (error : exn) : M A := λ w, (Thrown error, w).

Definition tell (e : event) : M unit := λ w, (Returned tt, emit e w).

(** A pure computation that may throw or leave the types, run in [M]. *)
Definition lift {A} (o : outcome A) : M A := λ w, (o, w).

(** [try { m } catch (error) { handler error }] *)
Definition try_catch {A} (m : M A) (handler : exn → M A) : M A := λ w,
  match m w with
  | (Thrown error, w') => handler error w'
  | r => r
  end.

(** ** node:fs *)

Definition existsSync (path : string) : M bool := λ w,
  (Returned (bool_decide (is_Some (files w !! path))), w).

Definition readdirSync (path : string) : M (list string) := λ w,
  match files w !! path with
  | Some (Dir names) => (Returned names, w)
  | Some (File _) =>
      (Thrown (SystemError "ENOTDIR" "not a directory" "scandir" path), w)
  | Some Denied =>
      (Thrown (SystemError "EACCES" "permission denied" "scandir" path), w)
  | None =>
      (Thrown (SystemError "ENOENT" "no such file or directory" "scandir" path), w)
  end.

(** A directory can be opened; it is the read that fails, on the open
    file. *)
Definition readFileSync (path : string) : M string := λ w,
  match files w !! path with
  | Some (File content) => (Returned content, w)
  | Some (Dir _) =>
      (Thrown (DescriptorError "EISDIR" "illegal operation on a directory" "read"), w)
  | Some Denied =>
      (Thrown (SystemError "EACCES" "permission denied" "open" path), w)
  | None =>
      (Thrown (SystemError "ENOENT" "no such file or directory" "open" path), w)
  end.

(** The directory part of a path: what comes before its last [/], and
    [None] for a path without [/], which names an entry of the working
    directory.  The directory part of [/manifest.json] is empty: the
    root. *)
Fixpoint dirname (path : string) : option string :=
  match path with
  | EmptyString => None
  | String c rest =>
      match dirname rest with
      | Some directory => Some (String c directory)
      | None => if Ascii.eqb c "/" then Some EmptyString else None
      end
  end.

(** What creating a file at [path] throws, when nothing is at [path]: the
    directory that is to hold the file has to be there.  The root and the
    working directory always are. *)
Definition create_error (fs : gmap string node) (path : string) : option exn :=
  match dirname path with
  | None | Some EmptyString => None
  | Some directory =>
      match fs !! directory with
      | Some (Dir _) => None
      | Some (File _) =>
          Some (SystemError "ENOTDIR" "not a directory" "open" path)
      | Some Denied =>
          Some (SystemError "EACCES" "permission denied" "open" path)
      | None =>
          Some (SystemError "ENOENT" "no such file or directory" "open" path)
      end
  end.

(** A run lists the add-on directory once, before it writes anything: the
    names that a [Dir] node holds are the names at that time, and writing
    a new file leaves them as they are. *)
Definition writeFileSync (path : string) (data : string) : M unit := λ w,
  match files w !! path with
  | Some (Dir _) =>
      (Thrown (SystemError "EISDIR" "illegal operation on a directory" "open" path), w)
  | Some Denied =>
      (Thrown (SystemError "EACCES" "permission denied" "open" path), w)
  | Some (File _) =>
      (Returned tt, mkWorld (<[path := File data]> (files w)) (trace w))
  | None =>
      match create_error (files w) path with
      | Some error => (Thrown error, w)
      | None => (Returned tt, mkWorld (<[path := File data]> (files w)) (trace w))
      end
  end.

(** ** The collaborators of main.ts *)

(** The libraries and the modules of the repository that [main.ts] calls
    and that are not among the sources: [path.join], [toml.parse], the
    validator [addon.parse] of [./schema], the two resolvers of [./github]
    and [./standalone], and [JSON].  A resolver mutates the add-on it is
    given and may throw: it returns the add-on as it leaves it, and the
    exception if there is one. *)
Class Collaborators : Type := {
  path_join : string → string → string;
  toml_parse : string → exn + json;
  addonSchema_parse : json → exn + Addon;
  updateFromGithub : Addon → json → Addon * option exn;
  updateStandalone : Addon → json → Addon * option exn;
  JSON_stringify : json → string;
  JSON_stringify_indented : json → string;
  JSON_parse : string → exn + json
}.

(** ** addAddonName *)

(** [Array.prototype.includes] on an array of strings. *)
Definition includes (names : list string) (name : string) : bool :=
  existsb (String.eqb name) names.

Definition addAddonName (addon : Addon) (name : string) : Addon :=
  match addon_names addon with
  | None => set_addon_names (Some [name]) addon
  | Some names =>
      if includes names name then addon
      else set_addon_names (Some (names ++ [name])) addon
  end.

(** ** Reading a parsed JSON value *)

#[global] Instance outcome_ret : MRet outcome := λ A a, Returned a.

#[global] Instance outcome_bind : MBind outcome := λ A B f o,
  match o with
  | Returned a => f a
  | Thrown error => Thrown error
  | OutOfType => OutOfType
  end.

Definition of_sum {A} (r : exn + A) : outcome A :=
  match r with
  | inl error => Thrown error
  | inr a => Returned a
  end.

Fixpoint assoc (key : string) (members : list (string * json)) : option json :=
  match members with
  | [] => None
  | (k, v) :: rest => if String.eqb key k then Some v else assoc key rest
  end.

(** [value.key] where [value] is neither [undefined] nor [null] and [key] is
    no property of a prototype: the member of an object, [undefined]
    ([None]) on anything else. *)
Definition prop (key : string) (value : json) : option json :=
  match value with
  | JObj members => assoc key members
  | _ => None
  end.

(** [value.key] on any value: reading a property of [undefined] or of
    [null] throws. *)
Definition get (key : string) (value : option json) : outcome (option json) :=
  match value with
  | None =>
      Thrown (TypeError
        ("Cannot read properties of undefined (reading '" +:+ key +:+ "')"))
  | Some JNull =>
      Thrown (TypeError
        ("Cannot read properties of null (reading '" +:+ key +:+ "')"))
  | Some v => Returned (prop key v)
  end.

(** [existingAddon.package.id] *)
Definition existing_id (existingAddon : json) : outcome (option json) :=
  p ← get "package" (Some existingAddon); get "id" p.

(** [id === value], [id] a string. *)
Definition strict_eq (id0 : string) (value : option json) : bool :=
  match value with
  | Some (JStr s) => String.eqb id0 s
  | _ => false
  end.

(** [String(value)], as a template literal converts what it interpolates. *)
Fixpoint js_String (value : json) : string :=
  match value with
  | JNull => "null"
  | JBool true => "true"
  | JBool false => "false"
  | JNum n => pretty n
  | JStr s => s
  | JArr items =>
      (fix join (items : list json) : string :=
         match items with
         | [] => EmptyString
         | [v] => match v with JNull => EmptyString | _ => js_String v end
         | v :: rest =>
             match v with JNull => EmptyString | _ => js_String v end +:+ "," +:+ join rest
         end) items
  | JObj _ => "[object Object]"
  end.

Definition template (value : option json) : string :=
  match value with
  | None => "undefined"
  | Some v => js_String v
  end.

(** The three fields that carry-forward assigns have the types
    [string | undefined] and [string[] | undefined]. *)
Definition as_optional_string (value : option json) : outcome (option string) :=
  match value with
  | None => Returned None
  | Some (JStr s) => Returned (Some s)
  | Some _ => OutOfType
  end.

Fixpoint as_strings (items : list json) : outcome (list string) :=
  match items with
  | [] => Returned []
  | JStr s :: rest => l ← as_strings rest; mret (s :: l)
  | _ :: _ => OutOfType
  end.

Definition as_optional_strings (value : option json)
  : outcome (option (list string)) :=
  match value with
  | None => Returned None
  | Some (JArr items) => l ← as_strings items; mret (Some l)
  | Some _ => OutOfType
  end.

(** What [for (const existingAddon of existingManifest)] iterates: the
    items of an array, the characters of a string; any other JSON value is
    not iterable. *)
Definition iterate (existingManifest : json) : outcome (list json) :=
  match existingManifest with
  | JArr items => Returned items
  | JStr s => Returned ((λ c, JStr (String c EmptyString)) <$> String.list_ascii_of_string s)
  | _ => Thrown (TypeError "existingManifest is not iterable")
  end.

(** ** Writing an add-on as JSON *)

Definition optional (key : string) (value : option json) : list (string * json) :=
  match value with
  | Some v => [(key, v)]
  | None => []
  end.

(** The value [JSON.stringify] sees for an add-on: a property that is
    [undefined] is left out. *)
Definition addon_to_json (addon : Addon) : json :=
  JObj ([("package", JObj [("id", JStr (id (package addon)));
                           ("name", JStr (name (package addon)))]);
         ("host", JObj (optional "github" (github (host addon)) ++
                        optional "standalone" (standalone (host addon))))]
        ++ optional "release" (JStr <$> release addon)
        ++ optional "prerelease" (JStr <$> prerelease addon)
        ++ optional "addon_names" ((λ l, JArr (JStr <$> l)) <$> addon_names addon)).

(** [const manifest = { addons }] *)
Definition manifest_of (addons : list Addon) : json :=
  JObj [("addons", JArr (addon_to_json <$> addons))].

(** ** The pipeline *)

Section Pipeline.

Context `{Collaborators}.

(** [update] (lines 20-26): the [github] key is tested first. *)
Definition update (addon : Addon) : World → (Addon * option exn) * World := λ w,
  match github (host addon) with
  | Some params =>
      (updateFromGithub addon params, emit (resolve_github addon params) w)
  | None =>
      match standalone (host addon) with
      | Some params =>
          (updateStandalone addon params, emit (resolve_standalone addon params) w)
      | None => ((addon, None), w)
      end
  end.

(** [addonSchema.parse(toml.parse(tomlContent.toString()))] *)
Definition parseConfig (tomlContent : string) : M Addon :=
  table ← lift (of_sum (toml_parse tomlContent));
  lift (of_sum (addonSchema_parse table)).

(** [for (const validationError of error.errors)] (lines 89-92) *)
Fixpoint reportErrors (fileName filePath : string) (errors : list string) : M unit :=
  match errors with
  | [] => mret tt
  | validationError :: rest =>
      tell (core_error validationError (Some filePath));;
      tell (console_error (fileName +:+ ": " +:+ validationError));;
      reportErrors fileName filePath rest
  end.

(** The [catch] of lines 83-97: a validation error sets the flag and is
    reported, any other error is thrown again. *)
Definition onParseError (fileName filePath : string) (addons : list Addon)
    (error : exn) : M (list Addon * bool) :=
  if isZodErrorLike error
  then reportErrors fileName filePath (zod_errors error);; mret (addons, true)
  else throw error.

(** The body of the loop of lines 76-98, for one file name, with the two
    variables the loop updates: [addons] and [encounteredValidationError].
    The file is read outside the [try]. *)
Definition collectFile (addonsPath fileName : string)
    (addons : list Addon) (encounteredValidationError : bool)
    : M (list Addon * bool) :=
  let filePath := path_join addonsPath fileName in
  tomlContent ← readFileSync filePath;
  try_catch
    (config ← parseConfig tomlContent;
     mret (addons ++ [config], encounteredValidationError))
    (onParseError fileName filePath addons).

(** [for (const fileName of fs.readdirSync(addonsPath))] *)
Fixpoint collect (addonsPath : string) (fileNames : list string)
    (addons : list Addon) (encounteredValidationError : bool)
    : M (list Addon * bool) :=
  match fileNames with
  | [] => mret (addons, encounteredValidationError)
  | fileName :: rest =>
      '(addons', flag) ←
        collectFile addonsPath fileName addons encounteredValidationError;
      collect addonsPath rest addons' flag
  end.

(** [found.release = ...; found.prerelease = ...; found.addon_names = ...]
    on the first add-on that [test] accepts: the object [addons.find]
    returns is that element of the array. *)
Fixpoint assign_found (test : Addon → bool) (assign : Addon → Addon)
    (addons : list Addon) : list Addon :=
  match addons with
  | [] => []
  | value :: rest =>
      if test value then assign value :: rest
      else value :: assign_found test assign rest
  end.

Definition same_id (existingId : option json) (value : Addon) : bool :=
  strict_eq (id (package value)) existingId.

(** The three assignments of lines 122-124. *)
Definition carry (r p : option string) (n : option (list string))
    (found : Addon) : Addon :=
  set_addon_names n (set_prerelease p (set_release r found)).

(** The body of the loop of lines 111-125.  [existingAddon.package.id] is
    evaluated by the callback of [find], or by the warning when [addons] is
    empty: it throws in both or in neither, so it is read once, first. *)
Definition mergeEntry (existingAddon : json) (addons : list Addon)
    : M (list Addon) :=
  existingId ← lift (existing_id existingAddon);
  match find (same_id existingId) addons with
  | None =>
      tell (core_warning
        ("Addon " +:+ template existingId +:+ " was removed from manifest!"));;
      mret addons
  | Some _ =>
      r ← lift (as_optional_string (prop "release" existingAddon));
      p ← lift (as_optional_string (prop "prerelease" existingAddon));
      n ← lift (as_optional_strings (prop "addon_names" existingAddon));
      mret (assign_found (same_id existingId) (carry r p n) addons)
  end.

(** [for (const existingAddon of existingManifest)] *)
Fixpoint mergeExisting (existingManifest : list json) (addons : list Addon)
    : M (list Addon) :=
  match existingManifest with
  | [] => mret addons
  | existingAddon :: rest =>
      addons' ← mergeEntry existingAddon addons;
      mergeExisting rest addons'
  end.

(** Lines 106-126. *)
Definition carryForward (manifestPath : option string) (addons : list Addon)
    : M (list Addon) :=
  match manifestPath with
  | Some path =>
      if bool_decide (path = EmptyString) then mret addons
      else
        present ← existsSync path;
        if present : bool then
          text ← readFileSync path;
          existingManifest ← lift (of_sum (JSON_parse text));
          entries ← lift (iterate existingManifest);
          mergeExisting entries addons
        else mret addons
  | None => mret addons
  end.

(** The body of the loop of lines 129-139: the [catch] reports the failure
    and the loop goes on.  The add-on stays in the array as the resolver
    left it, and its name is read after the call. *)
Definition updateOrReport (addon : Addon) : M Addon := λ w,
  let '((addon', thrown), w1) := update addon w in
  match thrown with
  | Some error =>
      let message := "Addon " +:+ name (package addon')
                     +:+ " failed to update: " +:+ errorMessage error in
      (Returned addon', emit (console_log message) (emit (core_error message None) w1))
  | None => (Returned addon', w1)
  end.

(** [for (const addon of addons)] *)
Fixpoint updateAll (addons : list Addon) : M (list Addon) :=
  match addons with
  | [] => mret []
  | addon :: rest =>
      addon' ← updateOrReport addon;
      rest' ← updateAll rest;
      mret (addon' :: rest')
  end.

(** Lines 141-150. *)
Definition output (manifestPath : option string) (addons : list Addon) : M unit :=
  let manifest := manifest_of addons in
  match manifestPath with
  | Some path =>
      if bool_decide (path = EmptyString)
      then tell (console_log (JSON_stringify_indented manifest))
      else writeFileSync path (JSON_stringify manifest)
  | None => tell (console_log (JSON_stringify_indented manifest))
  end.

(** [generateManifest] (lines 49-151); [manifestPath = None] is
    [undefined]. *)
Definition generateManifest (addonsPath : string) (manifestPath : option string)
    : M unit :=
  present ← existsSync addonsPath;
  if negb present
  then throw (Error ("Addon directory does not exist: " +:+ addonsPath))
  else if bool_decide (manifestPath = Some EmptyString)
  then throw (Error "Invalid manifest path. Set to undefined to output to STDOUT.")
  else
    fileNames ← readdirSync addonsPath;
    '(addons, encounteredValidationError) ← collect addonsPath fileNames [] false;
    if encounteredValidationError : bool
    then throw (Error "Validation of some addons failed")
    else
      addons ← carryForward manifestPath addons;
      addons ← updateAll addons;
      output manifestPath addons.

(** ** What a run is expected to do, phase by phase *)

(** The resolver that [update] picks, without the world. *)
Definition resolve (addon : Addon) : Addon * option exn :=
  match github (host addon) with
  | Some params => updateFromGithub addon params
  | None =>
      match standalone (host addon) with
      | Some params => updateStandalone addon params
      | None => (addon, None)
      end
  end.

Definition resolver_calls (addon : Addon) : list event :=
  match github (host addon), standalone (host addon) with
  | Some params, _ => [resolve_github addon params]
  | None, Some params => [resolve_standalone addon params]
  | None, None => []
  end.

(** The message of line 135 for an add-on as the resolver left it. *)
Definition failure_message (addon' : Addon) (error : exn) : string :=
  "Addon " +:+ name (package addon') +:+ " failed to update: "
  +:+ errorMessage error.

Definition failure_events (addon : Addon) : list event :=
  match (resolve addon).2 with
  | Some error =>
      [core_error (failure_message (resolve addon).1 error) None;
       console_log (failure_message (resolve addon).1 error)]
  | None => []
  end.

(** A descriptor file that does not stop the scan: it can be read, and its
    text is a valid add-on ([inl]) or fails validation with the listed
    messages ([inr]). *)
Definition check (fs : gmap string node) (filePath : string)
    : option (Addon + list string) :=
  match fs !! filePath with
  | Some (File tomlContent) =>
      match toml_parse tomlContent with
      | inl error =>
          if isZodErrorLike error then Some (inr (zod_errors error)) else None
      | inr table =>
          match addonSchema_parse table with
          | inl error =>
              if isZodErrorLike error then Some (inr (zod_errors error)) else None
          | inr config => Some (inl config)
          end
      end
  | _ => None
  end.

(** A descriptor file that stops the scan with [error]: reading it throws,
    or parsing it throws something that is no validation error. *)
Definition fatal (fs : gmap string node) (filePath : string) (error : exn) : Prop :=
  (readFileSync filePath (mkWorld fs [])).1 = Thrown error ∨
  ∃ tomlContent,
    fs !! filePath = Some (File tomlContent) ∧
    (parseConfig tomlContent (mkWorld fs [])).1 = Thrown error ∧
    isZodErrorLike error = false.

Definition valid_configs (fs : gmap string node) (addonsPath : string)
    (fileNames : list string) : list Addon :=
  flat_map (λ fileName,
    match check fs (path_join addonsPath fileName) with
    | Some (inl config) => [config]
    | _ => []
    end) fileNames.

Definition fails_validation (fs : gmap string node) (addonsPath fileName : string)
    : bool :=
  match check fs (path_join addonsPath fileName) with
  | Some (inr _) => true
  | _ => false
  end.

(** The two reports of lines 90-91 for one validation message. *)
Definition report (fileName filePath validationError : string) : list event :=
  [core_error validationError (Some filePath);
   console_error (fileName +:+ ": " +:+ validationError)].

Definition validation_reports (fs : gmap string node) (addonsPath : string)
    (fileNames : list string) : list event :=
  flat_map (λ fileName,
    match check fs (path_join addonsPath fileName) with
    | Some (inr errors) =>
        flat_map (report fileName (path_join addonsPath fileName)) errors
    | _ => []
    end) fileNames.

(** The errors of the two checks that come before any work (lines 57-67). *)
Definition configuration_error (addonsPath : string) (error : exn) : Prop :=
  error = Error ("Addon directory does not exist: " +:+ addonsPath) ∨
  error = Error "Invalid manifest path. Set to undefined to output to STDOUT.".

(** An entry of a loaded manifest that has the type [Addon] where the loop
    of lines 111-125 reads it. *)
Definition typed_entry (existingAddon : json) : Prop :=
  (∃ existingId, existing_id existingAddon = Returned existingId) ∧
  (∃ r, as_optional_string (prop "release" existingAddon) = Returned r) ∧
  (∃ p, as_optional_string (prop "prerelease" existingAddon) = Returned p) ∧
  (∃ n, as_optional_strings (prop "addon_names" existingAddon) = Returned n).

(** The three fields of [addon] are the values of the same fields of the
    entry [existingAddon], as they stand there. *)
Definition carried_from (existingAddon : json) (addon : Addon) : Prop :=
  as_optional_string (prop "release" existingAddon) = Returned (release addon) ∧
  as_optional_string (prop "prerelease" existingAddon) = Returned (prerelease addon) ∧
  as_optional_strings (prop "addon_names" existingAddon) = Returned (addon_names addon).

Definition has_id (id0 : string) (existingAddon : json) : bool :=
  match existing_id existingAddon with
  | Returned existingId => strict_eq id0 existingId
  | _ => false
  end.

(** The last entry of the loaded manifest whose [package.id] is [id0]. *)
Fixpoint last_entry (id0 : string) (existingManifest : list json) : option json :=
  match existingManifest with
  | [] => None
  | existingAddon :: rest =>
      match last_entry id0 rest with
      | Some later => Some later
      | None => if has_id id0 existingAddon then Some existingAddon else None
      end
  end.

(** The warnings of lines 116-118 for the entries that match no add-on. *)
Definition removal_warnings (addons : list Addon) (existingManifest : list json)
    : list event :=
  flat_map (λ existingAddon,
    match existing_id existingAddon with
    | Returned existingId =>
        match find (same_id existingId) addons with
        | None =>
            [core_warning ("Addon " +:+ template existingId
                           +:+ " was removed from manifest!")]
        | Some _ => []
        end
    | _ => []
    end) existingManifest.

(** What the carry-forward step leaves alone: the identity block and the
    host of an add-on. *)
Definition identity (addon : Addon) : Package * Host := (package addon, host addon).

(** [addon] is the first of [addons] with its [package.id], at index [i]. *)
Definition first_with_id (addons : list Addon) (i : nat) (addon : Addon) : Prop :=
  addons !! i = Some addon ∧
  ∀ j other, j < i → addons !! j = Some other →
    id (package other) ≠ id (package addon).

End Pipeline.

(** ** Concrete collaborators

    A small instance of [Collaborators] on which the pipeline runs: a JSON
    printer and reader, a reader for the part of TOML that descriptors use
    (table headers and [key = value] lines), a validator for the fields of
    [Addon], and two resolvers that answer from a fixed table instead of
    the network. *)

Module Fixture.

Definition quote : ascii := ascii_of_nat 34.
Definition backslash : ascii := ascii_of_nat 92.
Definition newline : ascii := ascii_of_nat 10.

Definition str (c : ascii) : string := String c EmptyString.

Definition path_join (a b : string) : string := a +:+ "/" +:+ b.

(** *** JSON text *)

Fixpoint escape (s : string) : string :=
  match s with
  | EmptyString => EmptyString
  | String c rest =>
      if bool_decide (c = quote ∨ c = backslash)
      then String backslash (String c (escape rest))
      else String c (escape rest)
  end.

Definition quoted (s : string) : string := str quote +:+ escape s +:+ str quote.

Fixpoint stringify (value : json) : string :=
  match value with
  | JNull => "null"
  | JBool true => "true"
  | JBool false => "false"
  | JNum n => pretty n
  | JStr s => quoted s
  | JArr items =>
      "[" +:+
      (fix go (items : list json) : string :=
         match items with
         | [] => EmptyString
         | v :: rest =>
             match rest with
             | [] => stringify v
             | _ => stringify v +:+ "," +:+ go rest
             end
         end) items +:+ "]"
  | JObj members =>
      "{" +:+
      (fix go (members : list (string * json)) : string :=
         match members with
         | [] => EmptyString
         | (k, v) :: rest =>
             match rest with
             | [] => quoted k +:+ ":" +:+ stringify v
             | _ => quoted k +:+ ":" +:+ stringify v +:+ "," +:+ go rest
             end
         end) members +:+ "}"
  end.

(** [JSON.stringify(value, null, 2)] *)
Fixpoint stringify_indented (indent : string) (value : json) : string :=
  let inner := indent +:+ "  " in
  match value with
  | JArr [] => "[]"
  | JArr items =>
      "[" +:+ str newline +:+
      (fix go (items : list json) : string :=
         match items with
         | [] => EmptyString
         | v :: rest =>
             match rest with
             | [] => inner +:+ stringify_indented inner v +:+ str newline
             | _ => inner +:+ stringify_indented inner v +:+ "," +:+ str newline
                    +:+ go rest
             end
         end) items +:+ indent +:+ "]"
  | JObj [] => "{}"
  | JObj members =>
      "{" +:+ str newline +:+
      (fix go (members : list (string * json)) : string :=
         match members with
         | [] => EmptyString
         | (k, v) :: rest =>
             match rest with
             | [] => inner +:+ quoted k +:+ ": " +:+ stringify_indented inner v
                     +:+ str newline
             | _ => inner +:+ quoted k +:+ ": " +:+ stringify_indented inner v
                    +:+ "," +:+ str newline +:+ go rest
             end
         end) members +:+ indent +:+ "}"
  | _ => stringify value
  end.

Definition is_space (c : ascii) : bool :=
  bool_decide (c = " "%char ∨ c = newline ∨ c = ascii_of_nat 9 ∨ c = ascii_of_nat 13).

Fixpoint skip_ws (s : string) : string :=
  match s with
  | String c rest => if is_space c then skip_ws rest else s
  | EmptyString => s
  end.

(** The characters of a string literal, after its opening quote. *)
Fixpoint parse_chars (s : string) : option (string * string) :=
  match s with
  | EmptyString => None
  | String c rest =>
      if bool_decide (c = quote) then Some (EmptyString, rest)
      else if bool_decide (c = backslash) then
        match rest with
        | String d rest' =>
            '(t, r) ← parse_chars rest'; Some (String d t, r)
        | EmptyString => None
        end
      else '(t, r) ← parse_chars rest; Some (String c t, r)
  end.

Definition digit (c : ascii) : option Z :=
  let n := nat_of_ascii c in
  if bool_decide (48 ≤ n ≤ 57) then Some (Z.of_nat (n - 48)) else None.

Fixpoint parse_digits (s : string) (acc : Z) : Z * string :=
  match s with
  | String c rest =>
      match digit c with
      | Some d => parse_digits rest (10 * acc + d)
      | None => (acc, s)
      end
  | EmptyString => (acc, s)
  end.

Fixpoint parse_value (fuel : nat) (s : string) : option (json * string) :=
  match fuel with
  | 0 => None
  | S fuel =>
      match skip_ws s with
      | String "n" (String "u" (String "l" (String "l" r))) => Some (JNull, r)
      | String "t" (String "r" (String "u" (String "e" r))) => Some (JBool true, r)
      | String "f" (String "a" (String "l" (String "s" (String "e" r)))) =>
          Some (JBool false, r)
      | String "[" r =>
          match skip_ws r with
          | String "]" r' => Some (JArr [], r')
          | _ =>
              (fix items (k : nat) (s : string) (acc : list json) {struct k} :=
                 match k with
                 | 0 => None
                 | S k =>
                     '(v, r1) ← parse_value fuel s;
                     match skip_ws r1 with
                     | String "," r2 => items k r2 (acc ++ [v])
                     | String "]" r2 => Some (JArr (acc ++ [v]), r2)
                     | _ => None
                     end
                 end) fuel r []
          end
      | String "{" r =>
          match skip_ws r with
          | String "}" r' => Some (JObj [], r')
          | _ =>
              (fix members (k : nat) (s : string) (acc : list (string * json))
                   {struct k} :=
                 match k with
                 | 0 => None
                 | S k =>
                     match skip_ws s with
                     | String c r0 =>
                         if bool_decide (c = quote) then
                           '(key, r1) ← parse_chars r0;
                           match skip_ws r1 with
                           | String ":" r2 =>
                               '(v, r3) ← parse_value fuel r2;
                               match skip_ws r3 with
                               | String "," r4 => members k r4 (acc ++ [(key, v)])
                               | String "}" r4 => Some (JObj (acc ++ [(key, v)]), r4)
                               | _ => None
                               end
                           | _ => None
                           end
                         else None
                     | EmptyString => None
                     end
                 end) fuel r []
          end
      | String "-" r =>
          match r with
          | String c _ =>
              match digit c with
              | Some _ => let '(n, r') := parse_digits r 0 in Some (JNum (- n), r')
              | None => None
              end
          | EmptyString => None
          end
      | String c r =>
          if bool_decide (c = quote) then
            '(t, r') ← parse_chars r; Some (JStr t, r')
          else
            match digit c with
            | Some _ =>
                let '(n, r') := parse_digits (String c r) 0 in Some (JNum n, r')
            | None => None
            end
      | EmptyString => None
      end
  end.

Definition parse (text : string) : exn + json :=
  match parse_value (S (String.length text)) text with
  | Some (value, rest) =>
      match skip_ws rest with
      | EmptyString => inr value
      | _ => inl (SyntaxError "Unexpected non-whitespace character after JSON")
      end
  | None => inl (SyntaxError "Unexpected token in JSON")
  end.

(** *** Descriptor text: table headers and [key = value] lines of TOML *)

Fixpoint split_on (sep : ascii) (s : string) : list string :=
  match s with
  | EmptyString => [EmptyString]
  | String c rest =>
      if bool_decide (c = sep) then EmptyString :: split_on sep rest
      else
        match split_on sep rest with
        | first :: others => String c first :: others
        | [] => [str c]
        end
  end.

(** The text before the first character that [stop] accepts, and the text
    from that character on. *)
Fixpoint take_until (stop : ascii → bool) (s : string) : string * string :=
  match s with
  | EmptyString => (EmptyString, EmptyString)
  | String c rest =>
      if stop c then (EmptyString, s)
      else let '(before, after) := take_until stop rest in (String c before, after)
  end.

(** Replaces the table [key] of [members] by [f] of it, adding the table
    when it is missing. *)
Fixpoint upsert (key : string) (f : list (string * json) → list (string * json))
    (members : list (string * json)) : list (string * json) :=
  match members with
  | [] => [(key, JObj (f []))]
  | (k, v) :: rest =>
      if String.eqb key k then
        (k, JObj (f (match v with JObj sub => sub | _ => [] end))) :: rest
      else (k, v) :: upsert key f rest
  end.

Fixpoint put (table : list string) (f : list (string * json) → list (string * json))
    (members : list (string * json)) : list (string * json) :=
  match table with
  | [] => f members
  | t :: table' => upsert t (put table' f) members
  end.

Definition toml_value (s : string) : option json :=
  match s with
  | String "'" rest =>
      let '(text, after) := take_until (λ c, bool_decide (c = "'"%char)) rest in
      match after with
      | String _ after' =>
          match skip_ws after' with
          | EmptyString => Some (JStr text)
          | _ => None
          end
      | EmptyString => None
      end
  | _ =>
      '(v, after) ← parse_value (S (String.length s)) s;
      match skip_ws after with
      | EmptyString => Some v
      | _ => None
      end
  end.

(** One line of a descriptor, in the table [table]. *)
Definition toml_line (line : string) (state : list string * list (string * json))
    : exn + (list string * list (string * json)) :=
  let '(table, members) := state in
  match skip_ws line with
  | EmptyString => inr state
  | String "#" _ => inr state
  | String "[" rest =>
      let '(header, after) := take_until (λ c, bool_decide (c = "]"%char)) rest in
      match after with
      | String _ after' =>
          match skip_ws after' with
          | EmptyString =>
              let table' := split_on "." header in
              inr (table', put table' (λ sub, sub) members)
          | _ => inl (SyntaxError "Expected end of line after a table header")
          end
      | EmptyString => inl (SyntaxError "Expected ] at the end of a table header")
      end
  | text =>
      let '(key, after) :=
        take_until (λ c, is_space c || bool_decide (c = "="%char)) text in
      match skip_ws after with
      | String "=" rest =>
          match toml_value (skip_ws rest) with
          | Some v => inr (table, put table (λ sub, sub ++ [(key, v)]) members)
          | None => inl (SyntaxError ("Expected a value for " +:+ key))
          end
      | _ => inl (SyntaxError ("Expected = after " +:+ key))
      end
  end.

Fixpoint toml_lines (lines : list string) (state : list string * list (string * json))
    : exn + json :=
  match lines with
  | [] => inr (JObj state.2)
  | line :: rest =>
      match toml_line line state with
      | inl error => inl error
      | inr state' => toml_lines rest state'
      end
  end.

Definition toml_parse (text : string) : exn + json :=
  toml_lines (split_on newline text) ([], []).

(** *** The validator *)

(** The issue for a required string at [value]. *)
Definition string_issue (value : option json) : list string :=
  match value with
  | Some (JStr _) => []
  | None => ["Required"]
  | Some _ => ["Expected string"]
  end.

Definition string_of (value : option json) : string :=
  match value with
  | Some (JStr s) => s
  | _ => EmptyString
  end.

(** The host is the first of the two shapes that fits. *)
Definition host_of (value : option json) : option Host :=
  match value ≫= prop "github", value ≫= prop "standalone" with
  | Some (JObj params), _ => Some (mkHost (Some (JObj params)) None)
  | _, Some (JObj params) => Some (mkHost None (Some (JObj params)))
  | _, _ => None
  end.

Definition addonSchema_parse (table : json) : exn + Addon :=
  let package := prop "package" table in
  let issues :=
    string_issue (package ≫= prop "id") ++
    string_issue (package ≫= prop "name") ++
    match host_of (prop "host" table) with
    | Some _ => []
    | None => ["Invalid input"]
    end in
  match issues, host_of (prop "host" table) with
  | [], Some host =>
      inr (mkAddon (mkPackage (string_of (package ≫= prop "id"))
                              (string_of (package ≫= prop "name")))
                   host None None None)
  | _, _ => inl (ZodError "Validation error" issues)
  end.

(** *** The resolvers *)

(** The latest release of the repositories that exist. *)
Definition releases : list (string * string) :=
  [("acme/alpha", "v1.3.0"); ("acme/gamma", "v0.9.1")].

Fixpoint latest (repo : string) (table : list (string * string)) : option string :=
  match table with
  | [] => None
  | (r, tag) :: rest => if String.eqb repo r then Some tag else latest repo rest
  end.

(** Sets the release of a repository that exists and records the name of
    the add-on; fails with [Not Found] for any other. *)
Definition updateFromGithub (addon : Addon) (params : json) : Addon * option exn :=
  match latest (string_of (prop "repo" params)) releases with
  | Some tag =>
      (addAddonName (set_release (Some tag) addon) (name (package addon)), None)
  | None => (addon, Some (Error "Not Found"))
  end.

(** Records the name of the add-on, then takes the version the
    descriptor gives; without one it fails, after the name was recorded. *)
Definition updateStandalone (addon : Addon) (params : json) : Addon * option exn :=
  let addon' := addAddonName addon (name (package addon)) in
  match prop "version" params with
  | Some (JStr version) => (set_release (Some version) addon', None)
  | _ => (addon', Some (NotAnError "version check timed out"))
  end.

(** *** Descriptors and worlds *)

Definition alpha_toml : string := "# Alpha, released on the code host
[package]
id = 'alpha'
name = 'Alpha'

[host.github]
repo = 'acme/alpha'
".

(** A standalone add-on without a version: its resolver fails. *)
Definition beta_toml : string := "[package]
id = 'beta'
name = 'Beta'

[host.standalone]
url = 'https://example.org/beta.zip'
".

Definition gamma_toml : string := "[package]
id = 'gamma'
name = 'Gamma'

[host.github]
repo = 'acme/gamma'
".

(** A second descriptor with the id of Alpha. *)
Definition alpha_copy_toml : string := "[package]
id = 'alpha'
name = 'Alpha Classic'

[host.github]
repo = 'acme/alpha-classic'
".

(** No name and no host: two validation messages. *)
Definition broken_toml : string := "[package]
id = 'broken'
".

(** No id: one validation message. *)
Definition nameless_toml : string := "[package]
name = 'Nameless'

[host.github]
repo = 'acme/nameless'
".

(** Not TOML: the reader fails before validation. *)
Definition garbage_toml : string := "[package
id 'garbage'
".

Definition descriptors : list (string * node) :=
  [("/addons/alpha.toml", File alpha_toml);
   ("/addons/beta.toml", File beta_toml);
   ("/addons/gamma.toml", File gamma_toml);
   ("/addons/alpha-copy.toml", File alpha_copy_toml);
   ("/addons/broken.toml", File broken_toml);
   ("/addons/nameless.toml", File nameless_toml);
   ("/addons/garbage.toml", File garbage_toml);
   ("/addons/locked.toml", Denied)].

(** A world in which [/addons] lists [fileNames], with [extra] entries. *)
Definition world (fileNames : list string) (extra : list (string * node)) : World :=
  mkWorld (list_to_map (("/addons", Dir fileNames) :: extra ++ descriptors)) [].

(** An entry of an earlier manifest for Alpha, and one for an add-on that
    has no descriptor any more. *)
Definition alpha_entry : json :=
  JObj [("package", JObj [("id", JStr "alpha"); ("name", JStr "Alpha")]);
        ("host", JObj [("github", JObj [("repo", JStr "acme/alpha")])]);
        ("release", JStr "1.2.0");
        ("addon_names", JArr [JStr "Foo"])].

Definition omega_entry : json :=
  JObj [("package", JObj [("id", JStr "omega"); ("name", JStr "Omega")]);
        ("host", JObj [("github", JObj [("repo", JStr "acme/omega")])]);
        ("release", JStr "0.4.0")].

(** An earlier manifest written as an array of add-ons. *)
Definition array_manifest : string := stringify (JArr [alpha_entry; omega_entry]).

Definition alpha : Addon :=
  mkAddon (mkPackage "alpha" "Alpha")
          (mkHost (Some (JObj [("repo", JStr "acme/alpha")])) None)
          None None None.

Definition alpha_copy : Addon :=
  mkAddon (mkPackage "alpha" "Alpha Classic")
          (mkHost (Some (JObj [("repo", JStr "acme/alpha-classic")])) None)
          None None None.

Definition beta : Addon :=
  mkAddon (mkPackage "beta" "Beta")
          (mkHost None (Some (JObj [("url", JStr "https://example.org/beta.zip")])))
          None None None.

Definition gamma : Addon :=
  mkAddon (mkPackage "gamma" "Gamma")
          (mkHost (Some (JObj [("repo", JStr "acme/gamma")])) None)
          None None None.

(** An add-on whose host has neither key, and one whose host has both. *)
Definition hostless : Addon :=
  mkAddon (mkPackage "hostless" "Hostless") (mkHost None None) None None None.

Definition two_hosts : Addon :=
  mkAddon (mkPackage "alpha" "Alpha")
          (mkHost (Some (JObj [("repo", JStr "acme/alpha")]))
                  (Some (JObj [("version", JStr "9.9.9")])))
          None None None.

#[export] Instance collaborators : Collaborators :=
  Build_Collaborators path_join toml_parse addonSchema_parse
    updateFromGithub updateStandalone
    stringify (stringify_indented EmptyString) parse.

End Fixture.

(** ** run

    The entry point of the action (lines 29-47).  It reads the two inputs,
    resolves them to absolute paths and calls [generateManifest]; whatever
    is thrown on the way is caught, printed and handed to [core.setFailed]. *)

(** The two library functions that [run] calls for its inputs:
    [core.getInput name { required }] and [path.resolve]. *)
Class Inputs : Type := {
  getInput : string → bool → exn + string;
  path_resolve : string → string
}.

(** The process of the action: the world it acts on and [process.exitCode],
    which is [undefined] ([None]) until something sets it. *)
Record Process : Type := mkProcess {
  world : World;
  exitCode : option nat
}.

(** [core.setFailed(message)]: the exit code becomes 1 and the message is
    reported as an error. *)
Definition setFailed (message : string) (p : Process) : Process :=
  mkProcess (emit (core_error message None) (world p)) (Some 1).

Section Runner.

Context `{Collaborators} `{Inputs}.

(** The [try] block of lines 30-40. *)
Definition runBody : M unit :=
  addonsPathInput ← lift (of_sum (getInput "addons_path" true));
  let addonsPath := path_resolve addonsPathInput in
  manifestPathInput ← lift (of_sum (getInput "manifest_path" false));
  let manifestPath :=
    if bool_decide (manifestPathInput = EmptyString) then None
    else Some (path_resolve manifestPathInput) in
  generateManifest addonsPath manifestPath.

(** [run] (lines 29-47). *)
Definition run (p : Process) : outcome unit * Process :=
  match runBody (world p) with
  | (Thrown error, w) =>
      let message := errorMessage error in
      (Returned tt,
       setFailed message (mkProcess (emit (console_log message) w) (exitCode p)))
  | (r, w) => (r, mkProcess w (exitCode p))
  end.

End Runner.

(** A computation that leaves every file as it is, however it ends. *)
Definition keeps_files {A} (m : M A) : Prop :=
  ∀ w, files (m w).2 = files w.

(** What a run may do to the files: nothing, or, when it returns, put a
    regular file at the manifest path. *)
Definition writes_only_manifest (manifestPath : option string) (w : World)
    (result : outcome unit * World) : Prop :=
  files result.2 = files w ∨
  (result.1 = Returned tt ∧
   ∃ path data, manifestPath = Some path ∧ path ≠ EmptyString ∧
     files result.2 = <[path := File data]> (files w)).

(** Inputs that are read from a table, as the runner reads them from the
    environment: an input that is missing or empty is the empty string, and
    an error when it is required.  Paths are resolved against [/work]. *)
Module InputFixture.

Fixpoint lookup_input (name : string) (table : list (string * string))
    : string :=
  match table with
  | [] => EmptyString
  | (n, value) :: rest =>
      if String.eqb name n then value else lookup_input name rest
  end.

Definition getInput (table : list (string * string)) (name : string)
    (required : bool) : exn + string :=
  match lookup_input name table with
  | EmptyString =>
      if required
      then inl (Error ("Input required and not supplied: " +:+ name))
      else inr EmptyString
  | value => inr value
  end.

Definition path_resolve (path : string) : string :=
  match path with
  | EmptyString => "/work"
  | String "/" _ => path
  | _ => "/work/" +:+ path
  end.

Definition inputs (table : list (string * string)) : Inputs :=
  Build_Inputs (getInput table) path_resolve.

End InputFixture.

(** * Properties *)

(** ** The monad *)

Lemma bind_returned {A B} (m : M A) (f : A → M B) w a w' :
  m w = (Returned a, w') → (m ≫= f) w = f a w'.
Proof. intros Hm. unfold mbind, M_bind. by rewrite Hm. Qed.

Lemma bind_thrown {A B} (m : M A) (f : A → M B) w error w' :
  m w = (Thrown error, w') → (m ≫= f) w = (Thrown error, w').
Proof. intros Hm. unfold mbind, M_bind. by rewrite Hm. Qed.

Lemma bind_returned_inv {A B} (m : M A) (f : A → M B) w b w2 :
  (m ≫= f) w = (Returned b, w2) →
  ∃ a w1, m w = (Returned a, w1) ∧ f a w1 = (Returned b, w2).
Proof.
  unfold mbind, M_bind. destruct (m w) as [[a | error |] w1]; intros Hf.
  - by exists a, w1.
  - discriminate.
  - discriminate.
Qed.

Lemma emit_emit_trace e1 e2 w :
  emit e2 (emit e1 w) = mkWorld (files w) (trace w ++ [e1; e2]).
Proof. unfold emit. simpl. by rewrite <- app_assoc. Qed.

Lemma world_eta w : mkWorld (files w) (trace w) = w.
Proof. by destruct w. Qed.

Lemma world_nil w : mkWorld (files w) (trace w ++ []) = w.
Proof. rewrite app_nil_r. apply world_eta. Qed.

Section Properties.

Context `{Collaborators}.

(** ** The resolution step *)

Lemma update_resolve addon w :
  update addon w =
    (resolve addon, mkWorld (files w) (trace w ++ resolver_calls addon)).
Proof.
  unfold update, resolve, resolver_calls, emit.
  destruct (github (host addon)); [done |].
  destruct (standalone (host addon)); [done |].
  by rewrite world_nil.
Qed.

Lemma updateOrReport_run addon w :
  updateOrReport addon w =
    (Returned (resolve addon).1,
     mkWorld (files w)
       (trace w ++ resolver_calls addon ++ failure_events addon)).
Proof.
  unfold updateOrReport. rewrite update_resolve. unfold failure_events, failure_message.
  destruct (resolve addon) as [addon' [error |]]; simpl.
  - rewrite emit_emit_trace. simpl. by rewrite <- app_assoc.
  - by rewrite app_nil_r.
Qed.

(** Every add-on of the batch is passed to its resolver, in order, and stays
    in the batch as the resolver left it; nothing is written. *)
Lemma updateAll_run addons w :
  updateAll addons w =
    (Returned ((λ addon, (resolve addon).1) <$> addons),
     mkWorld (files w)
       (trace w ++ flat_map (λ addon, resolver_calls addon ++ failure_events addon)
                            addons)).
Proof.
  revert w. induction addons as [| addon rest IH]; intros w.
  - simpl. by rewrite world_nil.
  - simpl. erewrite bind_returned by apply updateOrReport_run.
    erewrite bind_returned by apply IH.
    simpl. by rewrite <- !app_assoc.
Qed.

(** ** The scan *)

Lemma reportErrors_run fileName filePath errors w :
  reportErrors fileName filePath errors w =
    (Returned tt,
     mkWorld (files w) (trace w ++ flat_map (report fileName filePath) errors)).
Proof.
  revert w. induction errors as [| validationError rest IH]; intros w.
  - simpl. by rewrite world_nil.
  - simpl. unfold mbind, M_bind, tell. rewrite IH. simpl.
    by rewrite <- !app_assoc.
Qed.

Lemma collectFile_valid addonsPath fileName addons flag w config :
  check (files w) (path_join addonsPath fileName) = Some (inl config) →
  collectFile addonsPath fileName addons flag w =
    (Returned (addons ++ [config], flag), w).
Proof.
  unfold check, collectFile, readFileSync, parseConfig, try_catch, mbind, M_bind, lift.
  destruct (files w !! path_join addonsPath fileName) as [[tomlContent | |] |];
    try discriminate.
  destruct (toml_parse tomlContent) as [error | table]; simpl.
  { destruct (isZodErrorLike error); discriminate. }
  destruct (addonSchema_parse table) as [error | config']; simpl.
  { destruct (isZodErrorLike error); discriminate. }
  by intros [= ->].
Qed.

Lemma collectFile_invalid addonsPath fileName addons flag w errors :
  check (files w) (path_join addonsPath fileName) = Some (inr errors) →
  collectFile addonsPath fileName addons flag w =
    (Returned (addons, true),
     mkWorld (files w)
       (trace w ++ flat_map (report fileName (path_join addonsPath fileName)) errors)).
Proof.
  unfold check, collectFile, readFileSync, parseConfig, try_catch, onParseError,
    mbind at 1 2 3, M_bind, lift.
  destruct (files w !! path_join addonsPath fileName) as [[tomlContent | |] |];
    try discriminate.
  destruct (toml_parse tomlContent) as [error | table]; simpl.
  { destruct (isZodErrorLike error); [| discriminate]. intros [= <-].
    erewrite bind_returned by apply reportErrors_run. done. }
  destruct (addonSchema_parse table) as [error | config']; simpl; [| discriminate].
  destruct (isZodErrorLike error); [| discriminate]. intros [= <-].
  erewrite bind_returned by apply reportErrors_run. done.
Qed.

Lemma collectFile_fatal addonsPath fileName addons flag w error :
  fatal (files w) (path_join addonsPath fileName) error →
  collectFile addonsPath fileName addons flag w = (Thrown error, w).
Proof.
  unfold fatal, collectFile, readFileSync, parseConfig, try_catch, onParseError,
    mbind at 1 2 3, M_bind, lift.
  intros [Hread | (tomlContent & Hfile & Hparse & Hzod)].
  - simpl in Hread.
    destruct (files w !! path_join addonsPath fileName) as [[tomlContent | |] |];
      simpl in Hread; by simplify_eq.
  - rewrite Hfile. revert Hparse.
    unfold parseConfig, mbind, M_bind, lift.
    destruct (toml_parse tomlContent) as [error' | table]; simpl.
    { intros [= ->]. by rewrite Hzod. }
    destruct (addonSchema_parse table) as [error' | config']; simpl; [| discriminate].
    intros [= ->]. by rewrite Hzod.
Qed.

(** A scan in which every file can be checked goes through all of them: it
    keeps the valid add-ons in order, reports every message of every file
    that fails validation, and raises the flag if there is one. *)
Lemma collect_checked addonsPath fileNames addons flag w :
  Forall (λ fileName, is_Some (check (files w) (path_join addonsPath fileName)))
         fileNames →
  collect addonsPath fileNames addons flag w =
    (Returned (addons ++ valid_configs (files w) addonsPath fileNames,
               flag || existsb (fails_validation (files w) addonsPath) fileNames),
     mkWorld (files w)
       (trace w ++ validation_reports (files w) addonsPath fileNames)).
Proof.
  intros Hall. revert addons flag w Hall.
  induction fileNames as [| fileName rest IH]; intros addons flag w Hall.
  - simpl. by rewrite world_nil, app_nil_r, orb_false_r.
  - apply Forall_cons in Hall as [[v Hv] Hrest]. simpl.
    unfold fails_validation at 1. rewrite Hv. destruct v as [config | errors].
    + erewrite bind_returned by by apply collectFile_valid.
      simpl. rewrite IH by done. simpl. by rewrite <- app_assoc.
    + erewrite bind_returned by by apply collectFile_invalid.
      simpl. rewrite IH by done. simpl.
      by rewrite <- !app_assoc, orb_true_r.
Qed.

(** A scan stops at the first file that is fatal: what comes after it is
    not looked at. *)
Lemma collect_fatal addonsPath before fileName after addons flag w error :
  Forall (λ fileName, is_Some (check (files w) (path_join addonsPath fileName)))
         before →
  fatal (files w) (path_join addonsPath fileName) error →
  collect addonsPath (before ++ fileName :: after) addons flag w =
    (Thrown error,
     mkWorld (files w) (trace w ++ validation_reports (files w) addonsPath before)).
Proof.
  intros Hall. revert addons flag w Hall.
  induction before as [| first rest IH]; intros addons flag w Hall Hfatal.
  - simpl. erewrite bind_thrown by by apply collectFile_fatal.
    by rewrite world_nil.
  - apply Forall_cons in Hall as [[v Hv] Hrest]. simpl. rewrite Hv.
    destruct v as [config | errors].
    + erewrite bind_returned by by apply collectFile_valid.
      simpl. by rewrite IH.
    + erewrite bind_returned by by apply collectFile_invalid.
      simpl. rewrite IH by done. simpl. by rewrite <- !app_assoc.
Qed.

End Properties.

(** ** The carry-forward step *)

Lemma same_id_true existingId value :
  same_id existingId value = true ↔ existingId = Some (JStr (id (package value))).
Proof.
  unfold same_id, strict_eq.
  destruct existingId as [[| | | s | |] |]; try (split; [discriminate | intros [=]]).
  rewrite String.eqb_eq. split; [by intros -> | by intros [= ->]].
Qed.

Lemma same_id_identity existingId a b :
  identity a = identity b → same_id existingId a = same_id existingId b.
Proof. unfold identity, same_id. by intros [= -> _]. Qed.

Lemma carry_identity r p n found : identity (carry r p n found) = identity found.
Proof. done. Qed.

Lemma identity_lookup (l1 l2 : list Addon) j b :
  identity <$> l1 = identity <$> l2 → l1 !! j = Some b →
  ∃ b', l2 !! j = Some b' ∧ identity b' = identity b.
Proof.
  intros Heq Hj.
  assert ((identity <$> l2) !! j = Some (identity b)) as Hl
    by (by rewrite <- Heq, list_lookup_fmap, Hj).
  rewrite list_lookup_fmap in Hl.
  destruct (l2 !! j) as [b' |]; [| discriminate]. exists b'.
  simpl in Hl. split; [done | congruence].
Qed.

Lemma find_identity test (l1 l2 : list Addon) :
  (∀ a b, identity a = identity b → test a = test b) →
  identity <$> l1 = identity <$> l2 →
  find test l1 = None → find test l2 = None.
Proof.
  intros Htest. revert l2.
  induction l1 as [| a l1 IH]; intros [| b l2] Heq; try done.
  rewrite !fmap_cons in Heq. apply (inj2 cons) in Heq as [Hab Hrest].
  simpl. rewrite <- (Htest a b Hab).
  destruct (test a); [discriminate |]. by apply IH.
Qed.

Lemma find_none_lookup test (addons : list Addon) i a :
  find test addons = None → addons !! i = Some a → test a = false.
Proof.
  revert i. induction addons as [| b rest IH]; intros [| i]; simpl; try done.
  - intros Hfind [= ->]. by destruct (test a).
  - destruct (test b); [discriminate |]. apply IH.
Qed.

Section AssignFound.

Variable test : Addon → bool.
Variable assign : Addon → Addon.

Lemma assign_found_identity addons :
  (∀ a, identity (assign a) = identity a) →
  identity <$> assign_found test assign addons = identity <$> addons.
Proof.
  intros Hassign. induction addons as [| value rest IH]; [done |].
  simpl. destruct (test value); rewrite !fmap_cons; [by rewrite Hassign | by rewrite IH].
Qed.

(** The first add-on that [test] accepts is the one that is assigned. *)
Lemma assign_found_first addons i a :
  addons !! i = Some a → test a = true →
  (∀ j b, j < i → addons !! j = Some b → test b = false) →
  assign_found test assign addons !! i = Some (assign a).
Proof.
  revert i. induction addons as [| value rest IH]; intros [| i]; simpl; try done.
  - intros [= ->] -> _. done.
  - intros Hi Ha Hbefore.
    rewrite (Hbefore 0 value) by (done || lia). simpl.
    apply IH; try done. intros j b Hj Hb. apply (Hbefore (S j) b); [lia | done].
Qed.

(** An add-on that [test] rejects, or that comes after one that [test]
    accepts, is left as it is. *)
Lemma assign_found_untouched addons i a :
  addons !! i = Some a →
  test a = false ∨ (∃ j b, j < i ∧ addons !! j = Some b ∧ test b = true) →
  assign_found test assign addons !! i = Some a.
Proof.
  revert i. induction addons as [| value rest IH]; intros [| i]; simpl; try done.
  - intros [= ->] [-> | (j & b & Hj & _)]; [done | lia].
  - intros Hi Hcase. destruct (test value) eqn:Hvalue; simpl; [done |].
    apply IH; [done |]. destruct Hcase as [Ha | (j & b & Hj & Hb & Htest)].
    + by left.
    + right. destruct j as [| j]; simpl in Hb.
      * simplify_eq. congruence.
      * exists j, b. split; [lia | done].
Qed.

End AssignFound.

Section CarryForward.

Context `{Collaborators}.

(** What one turn of the loop does when it returns. *)
Lemma mergeEntry_returned existingAddon addons w merged w' :
  mergeEntry existingAddon addons w = (Returned merged, w') →
  ∃ existingId, existing_id existingAddon = Returned existingId ∧
    ((find (same_id existingId) addons = None ∧ merged = addons ∧
      w' = emit (core_warning ("Addon " +:+ template existingId
                               +:+ " was removed from manifest!")) w) ∨
     (find (same_id existingId) addons ≠ None ∧ w' = w ∧
      ∃ r p n,
        as_optional_string (prop "release" existingAddon) = Returned r ∧
        as_optional_string (prop "prerelease" existingAddon) = Returned p ∧
        as_optional_strings (prop "addon_names" existingAddon) = Returned n ∧
        merged = assign_found (same_id existingId) (carry r p n) addons)).
Proof.
  unfold mergeEntry, mbind, M_bind, lift, tell, mret, M_ret.
  destruct (existing_id existingAddon) as [existingId | |]; try discriminate.
  intros Hrun. exists existingId. split; [done |].
  destruct (find (same_id existingId) addons) as [found |].
  - right. split; [done |].
    destruct (as_optional_string (prop "release" existingAddon)) as [r | |];
      try discriminate.
    destruct (as_optional_string (prop "prerelease" existingAddon)) as [p | |];
      try discriminate.
    destruct (as_optional_strings (prop "addon_names" existingAddon)) as [n | |];
      try discriminate.
    simplify_eq. split; [done |]. by exists r, p, n.
  - left. by simplify_eq.
Qed.

Lemma mergeEntry_identity existingAddon addons w merged w' :
  mergeEntry existingAddon addons w = (Returned merged, w') →
  identity <$> merged = identity <$> addons.
Proof.
  intros (existingId & _ & [(_ & -> & _) | (_ & _ & r & p & n & _ & _ & _ & ->)])
    %mergeEntry_returned; [done |].
  apply assign_found_identity, carry_identity.
Qed.

Lemma removal_warnings_cons addons existingAddon rest :
  removal_warnings addons (existingAddon :: rest) =
    match existing_id existingAddon with
    | Returned existingId =>
        match find (same_id existingId) addons with
        | None =>
            [core_warning ("Addon " +:+ template existingId
                           +:+ " was removed from manifest!")]
        | Some _ => []
        end
    | _ => []
    end ++ removal_warnings addons rest.
Proof. done. Qed.

Lemma removal_warnings_identity addons1 addons2 existingManifest :
  identity <$> addons1 = identity <$> addons2 →
  removal_warnings addons1 existingManifest =
  removal_warnings addons2 existingManifest.
Proof.
  intros Hid. unfold removal_warnings. apply flat_map_ext. intros existingAddon.
  destruct (existing_id existingAddon) as [existingId | |]; try done.
  destruct (find (same_id existingId) addons1) eqn:H1,
           (find (same_id existingId) addons2) eqn:H2; try done.
  - apply (find_identity _ addons2 addons1) in H2; [congruence | | done].
    apply same_id_identity.
  - apply (find_identity _ addons1 addons2) in H1; [congruence | | done].
    apply same_id_identity.
Qed.

(** The merge changes neither the files nor the identity of an add-on, and
    it warns once for every entry that matches no add-on of the batch. *)
Lemma mergeExisting_frame existingManifest addons w merged w' :
  mergeExisting existingManifest addons w = (Returned merged, w') →
  identity <$> merged = identity <$> addons ∧
  files w' = files w ∧
  trace w' = trace w ++ removal_warnings addons existingManifest.
Proof.
  revert addons w.
  induction existingManifest as [| existingAddon rest IH]; intros addons w.
  - simpl. intros [= -> ->]. by rewrite app_nil_r.
  - intros Hrun. simpl in Hrun.
    apply bind_returned_inv in Hrun as (addons1 & w1 & Hentry & Hrest).
    apply IH in Hrest as (Hid & Hfiles & Htrace).
    pose proof (mergeEntry_identity _ _ _ _ _ Hentry) as Hid1.
    rewrite (removal_warnings_identity addons1 addons) in Htrace by done.
    split; [by rewrite Hid |].
    rewrite removal_warnings_cons, Hfiles, Htrace.
    apply mergeEntry_returned in Hentry
      as (existingId & -> & [(-> & _ & ->) | (Hfound & -> & _)]).
    + simpl. by rewrite <- app_assoc.
    + by destruct (find (same_id existingId) addons).
Qed.

Lemma first_with_id_identity addons addons1 i a a1 :
  identity <$> addons1 = identity <$> addons →
  first_with_id addons i a → addons1 !! i = Some a1 → identity a1 = identity a →
  first_with_id addons1 i a1.
Proof.
  intros Hid [Hi Hbefore] Hi1 Ha1. split; [done |].
  intros j other Hj Hother.
  destruct (identity_lookup _ _ _ _ Hid Hother) as (b & Hb & Hbid).
  specialize (Hbefore j b Hj Hb). unfold identity in *. congruence.
Qed.

(** The first add-on of the batch with a given id ends with the values of
    the last entry of the loaded manifest that has this id, and is left as
    it is when no entry has it. *)
Lemma mergeExisting_first existingManifest addons w merged w' i a :
  first_with_id addons i a →
  mergeExisting existingManifest addons w = (Returned merged, w') →
  ∃ a', merged !! i = Some a' ∧ identity a' = identity a ∧
    match last_entry (id (package a)) existingManifest with
    | Some existingAddon => carried_from existingAddon a'
    | None => a' = a
    end.
Proof.
  revert addons w a.
  induction existingManifest as [| existingAddon rest IH]; intros addons w a Hfirst.
  - simpl. intros [= -> ->]. exists a. by destruct Hfirst.
  - intros Hrun. simpl in Hrun.
    apply bind_returned_inv in Hrun as (addons1 & w1 & Hentry & Hrest).
    pose proof (mergeEntry_identity _ _ _ _ _ Hentry) as Hid1.
    apply mergeEntry_returned in Hentry as (existingId & Hex & Hcase).
    assert (has_id (id (package a)) existingAddon = same_id existingId a) as Hhas
      by (unfold has_id; by rewrite Hex).
    simpl. rewrite Hhas. destruct Hfirst as [Hi Hbefore].
    destruct Hcase as [(Hnone & -> & _) | (_ & _ & r & p & n & Hr & Hp & Hn & ->)].
    + rewrite (find_none_lookup _ _ _ _ Hnone Hi).
      destruct (IH addons w1 a (conj Hi Hbefore) Hrest) as (a' & Ha' & Hid & Hlast).
      exists a'. repeat split; try done. by destruct (last_entry _ rest).
    + destruct (same_id existingId a) eqn:Ha.
      * assert (assign_found (same_id existingId) (carry r p n) addons !! i
                = Some (carry r p n a)) as Hi1.
        { apply assign_found_first; try done. intros j b Hj Hb.
          destruct (same_id existingId b) eqn:Hbid; [| done].
          apply same_id_true in Ha, Hbid.
          destruct (Hbefore j b Hj Hb). congruence. }
        destruct (IH _ w1 (carry r p n a)
                    (first_with_id_identity _ _ _ _ _ Hid1 (conj Hi Hbefore) Hi1
                       (carry_identity r p n a)) Hrest)
          as (a' & Ha' & Hid & Hlast).
        exists a'. split; [done |]. split; [done |].
        change (id (package (carry r p n a))) with (id (package a)) in Hlast.
        destruct (last_entry _ rest); [done |]. by subst a'.
      * assert (assign_found (same_id existingId) (carry r p n) addons !! i
                = Some a) as Hi1 by (apply assign_found_untouched; auto).
        destruct (IH _ w1 a
                    (first_with_id_identity _ _ _ _ _ Hid1 (conj Hi Hbefore) Hi1
                       eq_refl) Hrest)
          as (a' & Ha' & Hid & Hlast).
        exists a'. repeat split; try done. by destruct (last_entry _ rest).
Qed.

(** An add-on that comes after another add-on of the batch with the same
    id is left as it is, whatever the loaded manifest holds. *)
Lemma mergeExisting_later existingManifest addons w merged w' i a j b :
  j < i → addons !! j = Some b → addons !! i = Some a →
  id (package b) = id (package a) →
  mergeExisting existingManifest addons w = (Returned merged, w') →
  merged !! i = Some a.
Proof.
  intros Hj. revert addons w b.
  induction existingManifest as [| existingAddon rest IH]; intros addons w b Hb Ha Hsame.
  - simpl. by intros [= -> ->].
  - intros Hrun. simpl in Hrun.
    apply bind_returned_inv in Hrun as (addons1 & w1 & Hentry & Hrest).
    pose proof (mergeEntry_identity _ _ _ _ _ Hentry) as Hid1.
    assert (addons1 !! i = Some a) as Ha1.
    { apply mergeEntry_returned in Hentry
        as (existingId & _ & [(_ & -> & _) | (_ & _ & r & p & n & _ & _ & _ & ->)]);
        [done |].
      apply assign_found_untouched; [done |].
      destruct (same_id existingId a) eqn:Hida; [| by left].
      right. exists j, b. repeat split; try done.
      apply same_id_true. apply same_id_true in Hida. congruence. }
    assert (∃ b1, addons1 !! j = Some b1 ∧ identity b1 = identity b)
      as (b1 & Hb1 & Hbid).
    { destruct (lookup_lt_is_Some_2 addons1 j) as [b1 Hb1].
      - apply lookup_lt_Some in Hb.
        apply (f_equal length) in Hid1. rewrite !length_fmap in Hid1. lia.
      - exists b1. split; [done |].
        destruct (identity_lookup _ _ _ _ Hid1 Hb1) as (b' & Hb' & Hbid). congruence. }
    apply (IH addons1 w1 b1); try done.
    unfold identity in Hbid. congruence.
Qed.

(** A loaded manifest whose entries have the type [Addon] is merged to the
    end. *)
Lemma mergeExisting_typed existingManifest addons w :
  Forall typed_entry existingManifest →
  ∃ merged w', mergeExisting existingManifest addons w = (Returned merged, w').
Proof.
  intros Hall. revert addons w.
  induction Hall as [| existingAddon rest Htyped _ IH]; intros addons w.
  - by exists addons, w.
  - destruct Htyped as ((existingId & Hid) & (r & Hr) & (p & Hp) & (n & Hn)).
    assert (∃ addons1 w1, mergeEntry existingAddon addons w = (Returned addons1, w1))
      as (addons1 & w1 & Hentry).
    { unfold mergeEntry, mbind, M_bind, lift, tell, mret, M_ret.
      rewrite Hid, Hr, Hp, Hn.
      destruct (find (same_id existingId) addons); eauto. }
    destruct (IH addons1 w1) as (merged & w' & Hrest).
    exists merged, w'. simpl. by erewrite bind_returned.
Qed.

(** The step reads the file at [manifestPath] when there is one, and merges
    the entries of the array it holds. *)
Lemma carryForward_array path text existingManifest addons w :
  path ≠ EmptyString →
  files w !! path = Some (File text) →
  JSON_parse text = inr (JArr existingManifest) →
  carryForward (Some path) addons w = mergeExisting existingManifest addons w.
Proof.
  intros Hpath Hfile Hparse.
  unfold carryForward, existsSync, readFileSync, mbind at 1 2 3 4, M_bind, lift.
  rewrite bool_decide_false by done. rewrite Hfile.
  rewrite bool_decide_true by done. cbv beta. by rewrite Hfile, Hparse.
Qed.

Lemma carryForward_no_manifest manifestPath addons w :
  (∀ path, manifestPath = Some path → files w !! path = None) →
  carryForward manifestPath addons w = (Returned addons, w).
Proof.
  intros Hnone. unfold carryForward.
  destruct manifestPath as [path |]; [| done].
  case_bool_decide; [done |].
  unfold existsSync, mbind, M_bind. rewrite (Hnone path eq_refl).
  by rewrite bool_decide_false by (by intros [? ?]).
Qed.

End CarryForward.

(** ** A run, phase by phase *)

Section Run.

Context `{Collaborators}.

Lemma validation_reports_none fs addonsPath fileNames :
  existsb (fails_validation fs addonsPath) fileNames = false →
  validation_reports fs addonsPath fileNames = [].
Proof.
  unfold validation_reports, fails_validation.
  induction fileNames as [| fileName rest IH]; [done |]. simpl.
  destruct (check fs (path_join addonsPath fileName)) as [[config | errors] |];
    simpl; auto; discriminate.
Qed.

(** The reports of a scan are validation messages, each with the file it
    comes from: no other event is emitted while the batch is scanned. *)
Lemma validation_reports_events fs addonsPath fileNames e :
  e ∈ validation_reports fs addonsPath fileNames →
  ∃ fileName errors validationError,
    fileName ∈ fileNames ∧
    check fs (path_join addonsPath fileName) = Some (inr errors) ∧
    validationError ∈ errors ∧
    (e = core_error validationError (Some (path_join addonsPath fileName)) ∨
     e = console_error (fileName +:+ ": " +:+ validationError)).
Proof.
  unfold validation_reports.
  rewrite list_elem_of_In, in_flat_map. intros (fileName & Hin & He).
  destruct (check fs (path_join addonsPath fileName)) as [[config | errors] |]
    eqn:Hcheck; try done.
  apply in_flat_map in He as (validationError & Herr & He).
  exists fileName, errors, validationError.
  rewrite !list_elem_of_In. repeat split; try done.
  destruct He as [<- | [<- | []]]; auto.
Qed.

(** Every message of every file that fails validation is reported twice:
    as an annotation on the file, and on the console. *)
Lemma validation_reports_complete fs addonsPath fileNames fileName errors
    validationError :
  fileName ∈ fileNames →
  check fs (path_join addonsPath fileName) = Some (inr errors) →
  validationError ∈ errors →
  core_error validationError (Some (path_join addonsPath fileName))
    ∈ validation_reports fs addonsPath fileNames ∧
  console_error (fileName +:+ ": " +:+ validationError)
    ∈ validation_reports fs addonsPath fileNames.
Proof.
  intros Hin Hcheck Herr. unfold validation_reports.
  rewrite !list_elem_of_In, !in_flat_map. rewrite list_elem_of_In in Hin, Herr.
  split; exists fileName; (split; [done |]); rewrite Hcheck;
    apply in_flat_map; exists validationError; (split; [done |]); simpl; auto.
Qed.

(** After the two checks of lines 57-67, a run is the scan of the names the
    directory lists, followed by the rest of the pipeline. *)
Lemma generateManifest_listed addonsPath manifestPath w fileNames :
  files w !! addonsPath = Some (Dir fileNames) →
  manifestPath ≠ Some EmptyString →
  generateManifest addonsPath manifestPath w =
    ('(addons, encounteredValidationError) ←
       collect addonsPath fileNames [] false;
     if encounteredValidationError : bool
     then throw (Error "Validation of some addons failed")
     else
       addons ← carryForward manifestPath addons;
       addons ← updateAll addons;
       output manifestPath addons) w.
Proof.
  intros Hdir Hpath.
  unfold generateManifest, existsSync, readdirSync, mbind at 1 2 5, M_bind.
  rewrite Hdir. rewrite bool_decide_true by done. simpl.
  rewrite bool_decide_false by done. by rewrite Hdir.
Qed.

(** When every descriptor is valid, the batch is the add-ons of the
    descriptors, in the order of the directory, and nothing was emitted. *)
Lemma generateManifest_valid addonsPath manifestPath w fileNames :
  files w !! addonsPath = Some (Dir fileNames) →
  manifestPath ≠ Some EmptyString →
  Forall (λ fileName, is_Some (check (files w) (path_join addonsPath fileName)))
         fileNames →
  existsb (fails_validation (files w) addonsPath) fileNames = false →
  generateManifest addonsPath manifestPath w =
    (addons ← carryForward manifestPath
                (valid_configs (files w) addonsPath fileNames);
     addons ← updateAll addons;
     output manifestPath addons) w.
Proof.
  intros Hdir Hpath Hall Hnone.
  rewrite (generateManifest_listed _ _ _ fileNames) by done.
  erewrite bind_returned by by apply collect_checked.
  rewrite Hnone, validation_reports_none by done. simpl.
  by rewrite world_nil.
Qed.

End Run.

(** ** The claims about the pre-flight checks, the scan and the resolution *)

Section Claims.

Context `{Collaborators}.

(** C2, as amended.  When nothing exists at [addonsPath], [generateManifest]
    fails with the error [Addon directory does not exist: <addonsPath>]
    before any scanning, validation, resolution or output: the world is
    left as it was.  A path that exists and is not a directory passes this
    check, since the check is [fs.existsSync]; unless the manifest path is
    the empty string, the run then fails when the directory is listed, with
    the error of [readdirSync], and also leaves the world as it was. *)
Theorem missing_addons_path_is_rejected addonsPath manifestPath w :
  (files w !! addonsPath = None →
   generateManifest addonsPath manifestPath w =
     (Thrown (Error ("Addon directory does not exist: " +:+ addonsPath)), w)) ∧
  (∀ entry, files w !! addonsPath = Some entry →
     (∀ fileNames, entry ≠ Dir fileNames) →
     manifestPath ≠ Some EmptyString →
     ∃ code description,
       generateManifest addonsPath manifestPath w =
         (Thrown (SystemError code description "scandir" addonsPath), w) ∧
       ¬ configuration_error addonsPath
           (SystemError code description "scandir" addonsPath)).
Proof.
  split.
  - intros Hnone. unfold generateManifest, existsSync, mbind, M_bind.
    rewrite Hnone. by rewrite bool_decide_false by (by intros [? ?]).
  - intros entry Hentry Hnodir Hpath.
    unfold generateManifest, existsSync, readdirSync, mbind, M_bind.
    rewrite Hentry. rewrite bool_decide_true by done. simpl.
    rewrite bool_decide_false by done. rewrite Hentry.
    destruct entry as [content | fileNames |].
    + eexists _, _. split; [done |]. by intros [? | ?].
    + by destruct (Hnodir fileNames).
    + eexists _, _. split; [done |]. by intros [? | ?].
Qed.

(** C3.  Validate-all-before-fail: when every descriptor of the directory
    can be read and parsed, and at least one of them fails validation, the
    run goes through the whole directory, reports every validation message
    of every failing file (on the file and on the console), and then fails
    with [Validation of some addons failed].  The reports are all that the
    run emits and no file is written: no manifest, no resolver call. *)
Theorem validate_all_before_fail addonsPath manifestPath w fileNames :
  files w !! addonsPath = Some (Dir fileNames) →
  manifestPath ≠ Some EmptyString →
  Forall (λ fileName, is_Some (check (files w) (path_join addonsPath fileName)))
         fileNames →
  existsb (fails_validation (files w) addonsPath) fileNames = true →
  let reports := validation_reports (files w) addonsPath fileNames in
  generateManifest addonsPath manifestPath w =
    (Thrown (Error "Validation of some addons failed"),
     mkWorld (files w) (trace w ++ reports)) ∧
  (∀ fileName errors validationError,
     fileName ∈ fileNames →
     check (files w) (path_join addonsPath fileName) = Some (inr errors) →
     validationError ∈ errors →
     core_error validationError (Some (path_join addonsPath fileName)) ∈ reports ∧
     console_error (fileName +:+ ": " +:+ validationError) ∈ reports) ∧
  (∀ addon params,
     (resolve_github addon params ∉ reports) ∧
     (resolve_standalone addon params ∉ reports)).
Proof.
  intros Hdir Hpath Hall Hsome reports. split; [| split].
  - rewrite (generateManifest_listed _ _ _ fileNames) by done.
    erewrite bind_returned by by apply collect_checked.
    by rewrite Hsome.
  - intros fileName errors validationError.
    apply validation_reports_complete.
  - intros addon params.
    split; intros (? & ? & ? & _ & _ & _ & [? | ?])%validation_reports_events;
      discriminate.
Qed.

(** C7.  Fail-fast on errors that are no validation errors: when a file of
    the directory cannot be read, or its text makes the parser throw
    something else than a validation error, the run stops there with that
    very error.  The files listed before it were scanned (their validation
    messages are reported), the files listed after it are not looked at,
    and nothing is written. *)
Theorem fail_fast_on_other_errors addonsPath manifestPath w before fileName after
    error :
  files w !! addonsPath = Some (Dir (before ++ fileName :: after)) →
  manifestPath ≠ Some EmptyString →
  Forall (λ fileName, is_Some (check (files w) (path_join addonsPath fileName)))
         before →
  fatal (files w) (path_join addonsPath fileName) error →
  generateManifest addonsPath manifestPath w =
    (Thrown error,
     mkWorld (files w) (trace w ++ validation_reports (files w) addonsPath before)).
Proof.
  intros Hdir Hpath Hall Hfatal.
  rewrite (generateManifest_listed _ _ _ (before ++ fileName :: after)) by done.
  by erewrite bind_thrown by by apply collect_fatal.
Qed.

(** C10.  Host dispatch: an add-on whose host has the key [github] is passed
    to the github resolver, whether the key [standalone] is there or not;
    without [github], an add-on with [standalone] is passed to the
    standalone resolver; with neither key, [update] calls no resolver,
    throws nothing and leaves the add-on as it is, and the loop over the
    batch emits nothing for it. *)
Theorem update_dispatch addon w :
  (∀ params, github (host addon) = Some params →
     update addon w =
       (updateFromGithub addon params, emit (resolve_github addon params) w)) ∧
  (∀ params, github (host addon) = None → standalone (host addon) = Some params →
     update addon w =
       (updateStandalone addon params, emit (resolve_standalone addon params) w)) ∧
  (github (host addon) = None → standalone (host addon) = None →
     update addon w = ((addon, None), w) ∧
     updateAll [addon] w = (Returned [addon], w)).
Proof.
  unfold update. split; [| split].
  - by intros params ->.
  - by intros params -> ->.
  - intros Hg Hs. simpl. unfold mbind, M_bind, updateOrReport, update.
    by rewrite Hg, Hs.
Qed.

(** C5.  Per add-on isolation of resolution failures: when the resolver of
    one add-on of the batch throws, the failure is reported with the name of
    that add-on ([core.error], then the console) and the loop goes on.
    Every add-on of the batch, before and after the failing one, leaves the
    loop as its own resolver left it, the failing one included.  The run
    then ends with the manifest of this batch: the text of the object with
    the one member [addons], an array that holds, at the place of each
    add-on, the JSON of the add-on as its resolver left it, with the
    failing add-on at its place; the text is written to the manifest path,
    or printed when there is none. *)
Theorem resolver_failure_is_isolated addonsPath manifestPath w fileNames w0
    before failing after error :
  files w !! addonsPath = Some (Dir fileNames) →
  manifestPath ≠ Some EmptyString →
  Forall (λ fileName, is_Some (check (files w) (path_join addonsPath fileName)))
         fileNames →
  existsb (fails_validation (files w) addonsPath) fileNames = false →
  carryForward manifestPath (valid_configs (files w) addonsPath fileNames) w =
    (Returned (before ++ failing :: after), w0) →
  (resolve failing).2 = Some error →
  let resolved := λ addon, (resolve addon).1 in
  let message := "Addon " +:+ name (package (resolved failing))
                 +:+ " failed to update: " +:+ errorMessage error in
  let manifest :=
    JObj [("addons",
           JArr (((λ addon, addon_to_json (resolved addon)) <$> before)
                 ++ addon_to_json (resolved failing)
                 :: ((λ addon, addon_to_json (resolved addon)) <$> after)))] in
  ∃ w1,
    updateAll (before ++ failing :: after) w0 =
      (Returned ((resolved <$> before) ++ resolved failing :: (resolved <$> after)),
       w1) ∧
    files w1 = files w0 ∧
    trace w1 =
      trace w0
      ++ flat_map (λ addon, resolver_calls addon ++ failure_events addon) before
      ++ (resolver_calls failing ++ [core_error message None; console_log message])
      ++ flat_map (λ addon, resolver_calls addon ++ failure_events addon) after ∧
    generateManifest addonsPath manifestPath w =
      match manifestPath with
      | Some path => writeFileSync path (JSON_stringify manifest) w1
      | None => tell (console_log (JSON_stringify_indented manifest)) w1
      end.
Proof.
  intros Hdir Hpath Hall Hnone Hmerge Hthrown resolved message manifest.
  eexists. split; [| split; [| split]].
  - rewrite updateAll_run. by rewrite fmap_app, fmap_cons.
  - done.
  - simpl. rewrite flat_map_app. simpl. unfold failure_events at 2.
    rewrite Hthrown. by rewrite <- !app_assoc.
  - rewrite (generateManifest_valid _ _ _ fileNames) by done.
    erewrite bind_returned by exact Hmerge.
    erewrite bind_returned by apply updateAll_run.
    unfold output, manifest_of, manifest.
    rewrite !fmap_app, !fmap_cons, <- !list_fmap_compose.
    destruct manifestPath as [path |]; [| done].
    by rewrite bool_decide_false by congruence.
Qed.

End Claims.

(** ** The claim about addAddonName *)

Lemma includes_true names name : includes names name = true ↔ name ∈ names.
Proof.
  unfold includes. rewrite existsb_exists, list_elem_of_In.
  split.
  - intros (x & Hin & Heq). apply String.eqb_eq in Heq. by subst x.
  - intros Hin. exists name. split; [done | apply String.eqb_refl].
Qed.

Lemma includes_false names name : includes names name = false ↔ name ∉ names.
Proof.
  rewrite <- includes_true. by destruct (includes names name).
Qed.

Lemma addAddonName_names addon name :
  addon_names (addAddonName addon name) =
    Some match addon_names addon with
         | None => [name]
         | Some names => if includes names name then names else names ++ [name]
         end.
Proof.
  unfold addAddonName. destruct (addon_names addon) as [names |] eqn:Hnames; [| done].
  by destruct (includes names name).
Qed.

(** C6.  [addAddonName addon name] changes [addon_names] only.  It sets it
    to [[name]] when it is unset; it leaves the add-on as it is when [name]
    is one of the names; otherwise it puts [name] after the names, which
    keep their order.  Calling it twice with one name is calling it once,
    and calling it with two new names that differ adds both, in the order
    of the calls. *)
Theorem addAddonName_appends_once addon name other :
  identity (addAddonName addon name) = identity addon ∧
  release (addAddonName addon name) = release addon ∧
  prerelease (addAddonName addon name) = prerelease addon ∧
  (addon_names addon = None →
     addon_names (addAddonName addon name) = Some [name]) ∧
  (∀ names, addon_names addon = Some names → name ∈ names →
     addAddonName addon name = addon) ∧
  (∀ names, addon_names addon = Some names → name ∉ names →
     addon_names (addAddonName addon name) = Some (names ++ [name])) ∧
  addAddonName (addAddonName addon name) name = addAddonName addon name ∧
  (name ≠ other →
     (addon_names addon = None →
        addon_names (addAddonName (addAddonName addon name) other)
        = Some [name; other]) ∧
     (∀ names, addon_names addon = Some names → name ∉ names → other ∉ names →
        addon_names (addAddonName (addAddonName addon name) other)
        = Some (names ++ [name; other]))).
Proof.
  assert (∀ a n, identity (addAddonName a n) = identity a ∧
                 release (addAddonName a n) = release a ∧
                 prerelease (addAddonName a n) = prerelease a) as Hframe.
  { intros a n. unfold addAddonName.
    destruct (addon_names a) as [names |]; [| done].
    by destruct (includes names n). }
  destruct (Hframe addon name) as (Hid & Hrel & Hpre).
  repeat split; try done.
  - intros Hnone. by rewrite addAddonName_names, Hnone.
  - intros names Hnames Hin. unfold addAddonName. rewrite Hnames.
    by apply includes_true in Hin as ->.
  - intros names Hnames Hnotin. rewrite addAddonName_names, Hnames.
    by apply includes_false in Hnotin as ->.
  - unfold addAddonName at 1. rewrite addAddonName_names.
    destruct (addon_names addon) as [names |].
    + destruct (includes names name) eqn:Hin; [by rewrite Hin |].
      assert (includes (names ++ [name]) name = true) as ->; [| done].
      apply includes_true, elem_of_app. right. by apply list_elem_of_singleton.
    + assert (includes [name] name = true) as ->; [| done].
      by apply includes_true, list_elem_of_singleton.
  - intros Hnone. rewrite !addAddonName_names, Hnone.
    assert (includes [name] other = false) as ->; [| done].
    apply includes_false. by intros ->%list_elem_of_singleton.
  - intros names Hnames Hname Hother. rewrite !addAddonName_names, Hnames.
    apply includes_false in Hname as ->.
    assert (includes (names ++ [name]) other = false) as ->.
    { apply includes_false, not_elem_of_app. split; [done |].
      by intros ->%list_elem_of_singleton. }
    by rewrite <- app_assoc.
Qed.

(** ** Carry-forward from a manifest that is an array *)

Section CarryForwardClaims.

Context `{Collaborators}.

Lemma removal_warnings_elem addons existingManifest existingAddon existingId :
  existingAddon ∈ existingManifest →
  existing_id existingAddon = Returned existingId →
  find (same_id existingId) addons = None →
  core_warning ("Addon " +:+ template existingId +:+ " was removed from manifest!")
    ∈ removal_warnings addons existingManifest.
Proof.
  intros Hin Hid Hnone. unfold removal_warnings.
  rewrite list_elem_of_In, in_flat_map. rewrite list_elem_of_In in Hin.
  exists existingAddon. split; [done |]. rewrite Hid, Hnone. by left.
Qed.

(** X16.  When the file at the manifest path holds an array, the
    carry-forward step gives the first add-on of the validated batch with a
    given [package.id] the [release], [prerelease] and [addon_names] of the
    last entry of the array that has this id: the three values as they
    stand in the entry, whatever the add-on had, and nothing else of the
    add-on changes.  The resolution step then runs on the merged batch. *)
Theorem carry_forward_to_first_match addonsPath path w fileNames text
    existingManifest merged w' :
  files w !! addonsPath = Some (Dir fileNames) →
  path ≠ EmptyString →
  Forall (λ fileName, is_Some (check (files w) (path_join addonsPath fileName)))
         fileNames →
  existsb (fails_validation (files w) addonsPath) fileNames = false →
  files w !! path = Some (File text) →
  JSON_parse text = inr (JArr existingManifest) →
  carryForward (Some path) (valid_configs (files w) addonsPath fileNames) w =
    (Returned merged, w') →
  (∀ i addon existingAddon,
     first_with_id (valid_configs (files w) addonsPath fileNames) i addon →
     last_entry (id (package addon)) existingManifest = Some existingAddon →
     ∃ addon', merged !! i = Some addon' ∧
       package addon' = package addon ∧ host addon' = host addon ∧
       carried_from existingAddon addon') ∧
  generateManifest addonsPath (Some path) w =
    (resolved ← updateAll merged; output (Some path) resolved) w'.
Proof.
  intros Hdir Hpath Hall Hnone Hfile Hparse Hmerge. split.
  - intros i addon existingAddon Hfirst Hlast.
    rewrite (carryForward_array _ text existingManifest) in Hmerge by done.
    destruct (mergeExisting_first _ _ _ _ _ _ _ Hfirst Hmerge)
      as (addon' & Hi & Hid & Hcarried).
    rewrite Hlast in Hcarried. exists addon'.
    unfold identity in Hid. injection Hid as Hpackage Hhost. done.
  - rewrite (generateManifest_valid _ _ _ fileNames) by (done || congruence).
    by erewrite bind_returned by exact Hmerge.
Qed.

(** X17.  When the file at the manifest path holds an array and two
    add-ons of the batch have the same [package.id], the carry-forward step
    copies the values of an entry with this id onto the first of them in
    the order of the batch, and leaves the later one exactly as it was. *)
Theorem carry_forward_skips_later_duplicates path w text existingManifest
    addons merged w' i first j later :
  path ≠ EmptyString →
  files w !! path = Some (File text) →
  JSON_parse text = inr (JArr existingManifest) →
  carryForward (Some path) addons w = (Returned merged, w') →
  first_with_id addons i first →
  i < j → addons !! j = Some later →
  id (package later) = id (package first) →
  (∀ existingAddon,
     last_entry (id (package first)) existingManifest = Some existingAddon →
     ∃ first', merged !! i = Some first' ∧ carried_from existingAddon first') ∧
  merged !! j = Some later.
Proof.
  intros Hpath Hfile Hparse Hmerge Hfirst Hij Hlater Hsame.
  rewrite (carryForward_array _ text existingManifest) in Hmerge by done.
  split.
  - intros existingAddon Hlast.
    destruct (mergeExisting_first _ _ _ _ _ _ _ Hfirst Hmerge)
      as (first' & Hi & _ & Hcarried).
    rewrite Hlast in Hcarried. by exists first'.
  - destruct Hfirst as [Hi _].
    by apply (mergeExisting_later existingManifest addons w merged w' j later i first).
Qed.

(** X18.  When the file at the manifest path holds an array of add-on
    entries, each with a string for [package.id], the run returns and
    writes a manifest.  For every entry whose [package.id] matches no
    add-on of the validated batch it emits the warning [Addon <id> was
    removed from manifest!], and no add-on of the batch that is resolved
    and written has this id: the batch has one add-on per descriptor, with
    the identity the descriptor gives. *)
Theorem dropped_entry_warns addonsPath path w fileNames text existingManifest :
  files w !! addonsPath = Some (Dir fileNames) →
  path ≠ EmptyString →
  Forall (λ fileName, is_Some (check (files w) (path_join addonsPath fileName)))
         fileNames →
  existsb (fails_validation (files w) addonsPath) fileNames = false →
  files w !! path = Some (File text) →
  JSON_parse text = inr (JArr existingManifest) →
  Forall typed_entry existingManifest →
  Forall (λ existingAddon,
            ∃ existingId, existing_id existingAddon = Returned (Some (JStr existingId)))
         existingManifest →
  let batch := valid_configs (files w) addonsPath fileNames in
  ∃ merged,
    identity <$> merged = identity <$> batch ∧
    generateManifest addonsPath (Some path) w =
      (Returned tt,
       mkWorld
         (<[path := File (JSON_stringify
              (JObj [("addons",
                      JArr ((λ addon, addon_to_json (resolve addon).1) <$> merged))]))]>
            (files w))
         (trace w ++ removal_warnings batch existingManifest
          ++ flat_map (λ addon, resolver_calls addon ++ failure_events addon)
                      merged)) ∧
    ∀ existingAddon existingId,
      existingAddon ∈ existingManifest →
      existing_id existingAddon = Returned (Some (JStr existingId)) →
      find (same_id (Some (JStr existingId))) batch = None →
      core_warning ("Addon " +:+ existingId +:+ " was removed from manifest!")
        ∈ removal_warnings batch existingManifest ∧
      find (same_id (Some (JStr existingId))) merged = None.
Proof.
  intros Hdir Hpath Hall Hnone Hfile Hparse Htyped _ batch.
  destruct (mergeExisting_typed existingManifest batch w Htyped)
    as (merged & w1 & Hmerge).
  destruct (mergeExisting_frame _ _ _ _ _ Hmerge) as (Hid & Hfiles & Htrace).
  exists merged. split; [done |]. split.
  - rewrite (generateManifest_valid _ _ _ fileNames) by (done || congruence).
    erewrite bind_returned
      by (rewrite (carryForward_array _ text existingManifest) by done;
          exact Hmerge).
    erewrite bind_returned by apply updateAll_run.
    unfold output, manifest_of, writeFileSync. rewrite bool_decide_false by done.
    rewrite <- list_fmap_compose.
    simpl. rewrite Hfiles, Hfile, Htrace. by rewrite <- app_assoc.
  - intros existingAddon existingId Hin Hex Hfind. split.
    + by apply (removal_warnings_elem _ _ existingAddon (Some (JStr existingId))).
    + apply (find_identity _ batch merged); [| done | done].
      apply same_id_identity.
Qed.

End CarryForwardClaims.

(** ** The claim about reloading a manifest *)

Section Reload.

Context `{Collaborators}.

(** What [output] writes is an object with one member, [addons]: the loop
    of line 111 cannot iterate it. *)
Lemma written_manifest_is_not_iterable addons :
  iterate (manifest_of addons) =
    Thrown (TypeError "existingManifest is not iterable").
Proof. done. Qed.

(** C1.  The round trip fails: when the file at the manifest path holds a
    manifest as [generateManifest] writes it, [{ addons: [...] }], and
    [JSON.parse] reads this text back, a run over valid descriptors throws a
    [TypeError] at line 111, where it iterates the parsed manifest as if it
    were an array.  No value is carried forward, no add-on is resolved and
    the file is left as it was. *)
Theorem reload_of_written_manifest_throws addonsPath path w fileNames written :
  files w !! addonsPath = Some (Dir fileNames) →
  path ≠ EmptyString →
  Forall (λ fileName, is_Some (check (files w) (path_join addonsPath fileName)))
         fileNames →
  existsb (fails_validation (files w) addonsPath) fileNames = false →
  files w !! path = Some (File (JSON_stringify (manifest_of written))) →
  JSON_parse (JSON_stringify (manifest_of written)) = inr (manifest_of written) →
  generateManifest addonsPath (Some path) w =
    (Thrown (TypeError "existingManifest is not iterable"), w).
Proof.
  intros Hdir Hpath Hall Hnone Hfile Hparse.
  rewrite (generateManifest_valid _ _ _ fileNames) by (done || congruence).
  apply bind_thrown.
  unfold carryForward, existsSync, readFileSync, mbind at 1 2 3 4, M_bind, lift.
  rewrite bool_decide_false by done. rewrite Hfile.
  rewrite bool_decide_true by done. cbv beta. by rewrite Hfile, Hparse.
Qed.

End Reload.

(** ** Carry-forward from the manifest that a run writes

    The manifest that [generateManifest] writes at line 147 is the object
    [{ addons: [...] }]; the loop of line 111 iterates what it reads at the
    same path as an array.  So the step that is to carry values forward
    throws on every manifest that an earlier run wrote, before the first
    turn of the loop. *)

Section WrittenManifest.

Context `{Collaborators}.

Lemma carryForward_written path written addons w :
  path ≠ EmptyString →
  files w !! path = Some (File (JSON_stringify (manifest_of written))) →
  JSON_parse (JSON_stringify (manifest_of written)) = inr (manifest_of written) →
  carryForward (Some path) addons w =
    (Thrown (TypeError "existingManifest is not iterable"), w).
Proof.
  intros Hpath Hfile Hparse.
  unfold carryForward, existsSync, readFileSync, mbind at 1 2 3 4, M_bind, lift.
  rewrite bool_decide_false by done. rewrite Hfile.
  rewrite bool_decide_true by done. cbv beta. by rewrite Hfile, Hparse.
Qed.

Lemma generateManifest_written addonsPath path w fileNames written :
  files w !! addonsPath = Some (Dir fileNames) →
  path ≠ EmptyString →
  Forall (λ fileName, is_Some (check (files w) (path_join addonsPath fileName)))
         fileNames →
  existsb (fails_validation (files w) addonsPath) fileNames = false →
  files w !! path = Some (File (JSON_stringify (manifest_of written))) →
  JSON_parse (JSON_stringify (manifest_of written)) = inr (manifest_of written) →
  generateManifest addonsPath (Some path) w =
    (Thrown (TypeError "existingManifest is not iterable"), w).
Proof.
  intros Hdir Hpath Hall Hnone Hfile Hparse.
  rewrite (generateManifest_valid _ _ _ fileNames) by (done || congruence).
  by apply bind_thrown, (carryForward_written _ written).
Qed.

(** C4.  Carry-forward exactness fails on the manifest of an earlier run:
    when the file at the manifest path holds what a run wrote for a batch
    [written], [JSON.parse] reads it back, and an add-on of the new
    validated batch has the [package.id] of an add-on [old] that was
    written, the carry-forward step throws [TypeError: existingManifest is
    not iterable] at line 111 instead of overwriting the three fields of
    the add-on with those of [old].  No add-on of the batch is changed, no
    resolver is called, and the run fails with this error and the world as
    it was: the values of [old] stay in the file. *)
Theorem written_manifest_is_not_carried_forward addonsPath path w fileNames
    written i addon old :
  files w !! addonsPath = Some (Dir fileNames) →
  path ≠ EmptyString →
  Forall (λ fileName, is_Some (check (files w) (path_join addonsPath fileName)))
         fileNames →
  existsb (fails_validation (files w) addonsPath) fileNames = false →
  files w !! path = Some (File (JSON_stringify (manifest_of written))) →
  JSON_parse (JSON_stringify (manifest_of written)) = inr (manifest_of written) →
  let batch := valid_configs (files w) addonsPath fileNames in
  batch !! i = Some addon →
  old ∈ written →
  id (package old) = id (package addon) →
  carryForward (Some path) batch w =
    (Thrown (TypeError "existingManifest is not iterable"), w) ∧
  generateManifest addonsPath (Some path) w =
    (Thrown (TypeError "existingManifest is not iterable"), w) ∧
  files (generateManifest addonsPath (Some path) w).2 !! path =
    Some (File (JSON_stringify (manifest_of written))).
Proof.
  intros Hdir Hpath Hall Hnone Hfile Hparse batch _ _ _.
  split; [by apply (carryForward_written _ written) |].
  rewrite (generateManifest_written _ _ _ fileNames written) by done.
  by split.
Qed.

(** C8.  A dropped entry fails the run instead of warning: when the file
    at the manifest path holds what a run wrote for a batch [written],
    [JSON.parse] reads it back, and the [package.id] of an add-on [old]
    that was written matches no add-on of the new validated batch, the run
    throws [TypeError: existingManifest is not iterable] at line 111.  It
    emits nothing, so no warning for [old], and it writes nothing, so no
    new manifest. *)
Theorem dropped_entry_of_written_manifest_fails addonsPath path w fileNames
    written old :
  files w !! addonsPath = Some (Dir fileNames) →
  path ≠ EmptyString →
  Forall (λ fileName, is_Some (check (files w) (path_join addonsPath fileName)))
         fileNames →
  existsb (fails_validation (files w) addonsPath) fileNames = false →
  files w !! path = Some (File (JSON_stringify (manifest_of written))) →
  JSON_parse (JSON_stringify (manifest_of written)) = inr (manifest_of written) →
  old ∈ written →
  find (same_id (Some (JStr (id (package old)))))
       (valid_configs (files w) addonsPath fileNames) = None →
  let result := generateManifest addonsPath (Some path) w in
  result.1 = Thrown (TypeError "existingManifest is not iterable") ∧
  trace result.2 = trace w ∧
  files result.2 = files w.
Proof.
  intros Hdir Hpath Hall Hnone Hfile Hparse _ _ result. unfold result.
  by rewrite (generateManifest_written _ _ _ fileNames written).
Qed.

(** C9.  With the manifest of an earlier run nothing is copied onto the
    first of two add-ons with the same id: when the file at the manifest
    path holds what a run wrote for a batch [written], [JSON.parse] reads
    it back, two add-ons of the new batch have the [package.id] of an
    add-on [old] that was written, the carry-forward step throws
    [TypeError: existingManifest is not iterable] at line 111.  Neither
    the first of the two add-ons nor the later one is changed, and the run
    ends there. *)
Theorem duplicate_ids_with_written_manifest_fail addonsPath path w fileNames
    written i first j later old :
  files w !! addonsPath = Some (Dir fileNames) →
  path ≠ EmptyString →
  Forall (λ fileName, is_Some (check (files w) (path_join addonsPath fileName)))
         fileNames →
  existsb (fails_validation (files w) addonsPath) fileNames = false →
  files w !! path = Some (File (JSON_stringify (manifest_of written))) →
  JSON_parse (JSON_stringify (manifest_of written)) = inr (manifest_of written) →
  let batch := valid_configs (files w) addonsPath fileNames in
  first_with_id batch i first →
  i < j → batch !! j = Some later →
  id (package later) = id (package first) →
  old ∈ written →
  id (package old) = id (package first) →
  (∀ merged w', carryForward (Some path) batch w ≠ (Returned merged, w')) ∧
  carryForward (Some path) batch w =
    (Thrown (TypeError "existingManifest is not iterable"), w) ∧
  generateManifest addonsPath (Some path) w =
    (Thrown (TypeError "existingManifest is not iterable"), w).
Proof.
  intros Hdir Hpath Hall Hnone Hfile Hparse batch _ _ _ _ _ _.
  rewrite (carryForward_written _ written) by done.
  split; [done |]. split; [done |].
  by apply (generateManifest_written _ _ _ fileNames written).
Qed.

End WrittenManifest.

(** * The claims on a concrete directory *)

Local Existing Instance Fixture.collaborators.

Lemma missing_addons_path_is_rejected_witness :
  let w := Fixture.world ["alpha.toml"] [] in
  generateManifest "/plugins" None w =
    (Thrown (Error "Addon directory does not exist: /plugins"), w) ∧
  ∃ code description,
    generateManifest "/addons/alpha.toml" None w =
      (Thrown (SystemError code description "scandir" "/addons/alpha.toml"), w) ∧
    ¬ configuration_error "/addons/alpha.toml"
        (SystemError code description "scandir" "/addons/alpha.toml").
Proof.
  intros w.
  destruct (missing_addons_path_is_rejected "/plugins" None w) as [Hmissing _].
  destruct (missing_addons_path_is_rejected "/addons/alpha.toml" None w)
    as [_ Hfile].
  split.
  - apply Hmissing. vm_compute. reflexivity.
  - apply (Hfile (File Fixture.alpha_toml)).
    + vm_compute. reflexivity.
    + discriminate.
    + discriminate.
Defined.

(** C2 as stated fails on a path that is a regular file: the existence
    check passes, and the error is the one of the directory listing. *)
Lemma regular_file_passes_existence_check :
  let w := Fixture.world ["alpha.toml"] [] in
  files w !! "/addons/alpha.toml" = Some (File Fixture.alpha_toml) ∧
  generateManifest "/addons/alpha.toml" None w =
    (Thrown (SystemError "ENOTDIR" "not a directory" "scandir" "/addons/alpha.toml"),
     w) ∧
  ¬ configuration_error "/addons/alpha.toml"
      (SystemError "ENOTDIR" "not a directory" "scandir" "/addons/alpha.toml").
Proof.
  intros w. split; [| split].
  - vm_compute. reflexivity.
  - vm_compute. reflexivity.
  - intros [Herror | Herror]; discriminate Herror.
Qed.

Lemma validate_all_before_fail_witness :
  let w := Fixture.world ["alpha.toml"; "broken.toml"; "nameless.toml"] [] in
  generateManifest "/addons" (Some "/manifest.json") w =
    (Thrown (Error "Validation of some addons failed"),
     mkWorld (files w)
       [core_error "Required" (Some "/addons/broken.toml");
        console_error "broken.toml: Required";
        core_error "Invalid input" (Some "/addons/broken.toml");
        console_error "broken.toml: Invalid input";
        core_error "Required" (Some "/addons/nameless.toml");
        console_error "nameless.toml: Required"]).
Proof.
  intros w.
  destruct (validate_all_before_fail "/addons" (Some "/manifest.json") w
              ["alpha.toml"; "broken.toml"; "nameless.toml"]) as (Hrun & _).
  - vm_compute. reflexivity.
  - discriminate.
  - repeat constructor; vm_compute; eauto.
  - vm_compute. reflexivity.
  - rewrite Hrun. vm_compute. reflexivity.
Defined.

Lemma fail_fast_on_other_errors_witness :
  let w := Fixture.world ["broken.toml"; "garbage.toml"; "alpha.toml"] [] in
  let w' := Fixture.world ["broken.toml"; "locked.toml"; "nameless.toml"] [] in
  generateManifest "/addons" (Some "/manifest.json") w =
    (Thrown (SyntaxError "Expected ] at the end of a table header"),
     mkWorld (files w)
       [core_error "Required" (Some "/addons/broken.toml");
        console_error "broken.toml: Required";
        core_error "Invalid input" (Some "/addons/broken.toml");
        console_error "broken.toml: Invalid input"]) ∧
  generateManifest "/addons" None w' =
    (Thrown (SystemError "EACCES" "permission denied" "open" "/addons/locked.toml"),
     mkWorld (files w')
       [core_error "Required" (Some "/addons/broken.toml");
        console_error "broken.toml: Required";
        core_error "Invalid input" (Some "/addons/broken.toml");
        console_error "broken.toml: Invalid input"]).
Proof.
  intros w w'. split.
  - rewrite (fail_fast_on_other_errors "/addons" (Some "/manifest.json") w
               ["broken.toml"] "garbage.toml" ["alpha.toml"]
               (SyntaxError "Expected ] at the end of a table header")).
    + vm_compute. reflexivity.
    + vm_compute. reflexivity.
    + discriminate.
    + repeat constructor; vm_compute; eauto.
    + right. exists Fixture.garbage_toml. repeat split; vm_compute; reflexivity.
  - rewrite (fail_fast_on_other_errors "/addons" None w'
               ["broken.toml"] "locked.toml" ["nameless.toml"]
               (SystemError "EACCES" "permission denied" "open" "/addons/locked.toml")).
    + vm_compute. reflexivity.
    + vm_compute. reflexivity.
    + discriminate.
    + repeat constructor; vm_compute; eauto.
    + left. vm_compute. reflexivity.
Defined.

Lemma update_dispatch_witness :
  let w := Fixture.world [] [] in
  update Fixture.two_hosts w =
    ((addAddonName (set_release (Some "v1.3.0") Fixture.two_hosts) "Alpha", None),
     emit (resolve_github Fixture.two_hosts (JObj [("repo", JStr "acme/alpha")])) w) ∧
  update Fixture.beta w =
    ((addAddonName Fixture.beta "Beta", Some (NotAnError "version check timed out")),
     emit (resolve_standalone Fixture.beta
             (JObj [("url", JStr "https://example.org/beta.zip")])) w) ∧
  update Fixture.hostless w = ((Fixture.hostless, None), w) ∧
  updateAll [Fixture.hostless] w = (Returned [Fixture.hostless], w).
Proof.
  intros w.
  destruct (update_dispatch Fixture.two_hosts w) as (Hgithub & _ & _).
  destruct (update_dispatch Fixture.beta w) as (_ & Hstandalone & _).
  destruct (update_dispatch Fixture.hostless w) as (_ & _ & Hneither).
  split; [| split].
  - rewrite (Hgithub (JObj [("repo", JStr "acme/alpha")])) by reflexivity.
    reflexivity.
  - rewrite (Hstandalone (JObj [("url", JStr "https://example.org/beta.zip")]))
      by reflexivity.
    reflexivity.
  - apply Hneither; reflexivity.
Defined.

Lemma resolver_failure_is_isolated_witness :
  let w := Fixture.world ["alpha.toml"; "beta.toml"; "gamma.toml"] [] in
  let message := "Addon Beta failed to update: version check timed out" in
  let manifest :=
    JObj [("addons", JArr [
      JObj [("package", JObj [("id", JStr "alpha"); ("name", JStr "Alpha")]);
            ("host", JObj [("github", JObj [("repo", JStr "acme/alpha")])]);
            ("release", JStr "v1.3.0");
            ("addon_names", JArr [JStr "Alpha"])];
      JObj [("package", JObj [("id", JStr "beta"); ("name", JStr "Beta")]);
            ("host", JObj [("standalone",
                            JObj [("url", JStr "https://example.org/beta.zip")])]);
            ("addon_names", JArr [JStr "Beta"])];
      JObj [("package", JObj [("id", JStr "gamma"); ("name", JStr "Gamma")]);
            ("host", JObj [("github", JObj [("repo", JStr "acme/gamma")])]);
            ("release", JStr "v0.9.1");
            ("addon_names", JArr [JStr "Gamma"])]])] in
  generateManifest "/addons" (Some "/manifest.json") w =
    (Returned tt,
     mkWorld
       (<["/manifest.json" := File (JSON_stringify manifest)]> (files w))
       [resolve_github Fixture.alpha (JObj [("repo", JStr "acme/alpha")]);
        resolve_standalone Fixture.beta
          (JObj [("url", JStr "https://example.org/beta.zip")]);
        core_error message None;
        console_log message;
        resolve_github Fixture.gamma (JObj [("repo", JStr "acme/gamma")])]).
Proof.
  intros w message manifest.
  destruct (resolver_failure_is_isolated "/addons" (Some "/manifest.json") w
              ["alpha.toml"; "beta.toml"; "gamma.toml"] w
              [Fixture.alpha] Fixture.beta [Fixture.gamma]
              (NotAnError "version check timed out"))
    as (w1 & Hloop & Hfiles & Htrace & Hrun).
  - vm_compute. reflexivity.
  - discriminate.
  - repeat constructor; vm_compute; eauto.
  - vm_compute. reflexivity.
  - vm_compute. reflexivity.
  - vm_compute. reflexivity.
  - rewrite Hrun. unfold writeFileSync.
    rewrite Hfiles, Htrace. vm_compute. reflexivity.
Defined.

Lemma addAddonName_appends_once_witness :
  let named := set_addon_names (Some ["Foo"; "Bar"]) Fixture.alpha in
  addon_names (addAddonName Fixture.alpha "Alpha") = Some ["Alpha"] ∧
  addAddonName named "Foo" = named ∧
  addon_names (addAddonName named "Alpha") = Some ["Foo"; "Bar"; "Alpha"] ∧
  addAddonName (addAddonName named "Alpha") "Alpha" = addAddonName named "Alpha" ∧
  addon_names (addAddonName (addAddonName Fixture.alpha "Alpha") "Classic")
    = Some ["Alpha"; "Classic"] ∧
  addon_names (addAddonName (addAddonName named "Alpha") "Classic")
    = Some ["Foo"; "Bar"; "Alpha"; "Classic"].
Proof.
  intros named.
  destruct (addAddonName_appends_once Fixture.alpha "Alpha" "Classic")
    as (_ & _ & _ & Hunset & _ & _ & _ & Htwo).
  destruct (addAddonName_appends_once named "Foo" "Classic")
    as (_ & _ & _ & _ & Hpresent & _).
  destruct (addAddonName_appends_once named "Alpha" "Classic")
    as (_ & _ & _ & _ & _ & Habsent & Hidem & Htwo').
  destruct Htwo as [Htwo _]; [discriminate |].
  destruct Htwo' as [_ Htwo']; [discriminate |].
  split; [apply Hunset; reflexivity |].
  split; [apply (Hpresent ["Foo"; "Bar"]); [reflexivity | apply list_elem_of_here] |].
  split; [apply (Habsent ["Foo"; "Bar"]); [reflexivity |];
          apply includes_false; reflexivity |].
  split; [exact Hidem |].
  split; [apply Htwo; reflexivity |].
  apply (Htwo' ["Foo"; "Bar"]); [reflexivity | |]; apply includes_false; reflexivity.
Defined.

Lemma carry_forward_to_first_match_witness :
  let w := Fixture.world ["alpha.toml"; "beta.toml"]
             [("/manifest.json", File Fixture.array_manifest)] in
  let merged :=
    [carry (Some "1.2.0") None (Some ["Foo"]) Fixture.alpha; Fixture.beta] in
  let w' := emit (core_warning "Addon omega was removed from manifest!") w in
  (∃ addon', merged !! 0 = Some addon' ∧
     package addon' = package Fixture.alpha ∧ host addon' = host Fixture.alpha ∧
     carried_from Fixture.alpha_entry addon') ∧
  generateManifest "/addons" (Some "/manifest.json") w =
    (resolved ← updateAll merged; output (Some "/manifest.json") resolved) w'.
Proof.
  intros w merged w'.
  destruct (carry_forward_to_first_match "/addons" "/manifest.json" w
              ["alpha.toml"; "beta.toml"] Fixture.array_manifest
              [Fixture.alpha_entry; Fixture.omega_entry] merged w')
    as [Hfirst Hrun].
  - vm_compute. reflexivity.
  - discriminate.
  - repeat constructor; vm_compute; eauto.
  - vm_compute. reflexivity.
  - vm_compute. reflexivity.
  - vm_compute. reflexivity.
  - vm_compute. reflexivity.
  - split; [| exact Hrun].
    apply (Hfirst 0 Fixture.alpha Fixture.alpha_entry).
    + split; [vm_compute; reflexivity | intros j other Hj; lia].
    + vm_compute. reflexivity.
Defined.

Lemma carry_forward_skips_later_duplicates_witness :
  let w := Fixture.world ["alpha.toml"; "alpha-copy.toml"]
             [("/manifest.json", File Fixture.array_manifest)] in
  let merged :=
    [carry (Some "1.2.0") None (Some ["Foo"]) Fixture.alpha; Fixture.alpha_copy] in
  (∃ first', merged !! 0 = Some first' ∧ carried_from Fixture.alpha_entry first') ∧
  merged !! 1 = Some Fixture.alpha_copy.
Proof.
  intros w merged.
  destruct (carry_forward_skips_later_duplicates "/manifest.json" w
              Fixture.array_manifest [Fixture.alpha_entry; Fixture.omega_entry]
              [Fixture.alpha; Fixture.alpha_copy] merged
              (emit (core_warning "Addon omega was removed from manifest!") w)
              0 Fixture.alpha 1 Fixture.alpha_copy)
    as [Hfirst Hlater].
  - discriminate.
  - vm_compute. reflexivity.
  - vm_compute. reflexivity.
  - vm_compute. reflexivity.
  - split; [reflexivity | intros j other Hj; lia].
  - lia.
  - reflexivity.
  - reflexivity.
  - split; [| exact Hlater]. apply Hfirst. vm_compute. reflexivity.
Defined.

Lemma dropped_entry_warns_witness :
  let w := Fixture.world ["alpha.toml"; "beta.toml"]
             [("/manifest.json", File Fixture.array_manifest)] in
  let w' := (generateManifest "/addons" (Some "/manifest.json") w).2 in
  (generateManifest "/addons" (Some "/manifest.json") w).1 = Returned tt ∧
  core_warning "Addon omega was removed from manifest!" ∈ trace w' ∧
  files w' !! "/manifest.json" =
    Some (File (JSON_stringify (JObj [("addons", JArr [
      JObj [("package", JObj [("id", JStr "alpha"); ("name", JStr "Alpha")]);
            ("host", JObj [("github", JObj [("repo", JStr "acme/alpha")])]);
            ("release", JStr "v1.3.0");
            ("addon_names", JArr [JStr "Foo"; JStr "Alpha"])];
      JObj [("package", JObj [("id", JStr "beta"); ("name", JStr "Beta")]);
            ("host", JObj [("standalone",
                            JObj [("url", JStr "https://example.org/beta.zip")])]);
            ("addon_names", JArr [JStr "Beta"])]])]))).
Proof.
  intros w w'.
  destruct (dropped_entry_warns "/addons" "/manifest.json" w
              ["alpha.toml"; "beta.toml"] Fixture.array_manifest
              [Fixture.alpha_entry; Fixture.omega_entry])
    as (merged & Hid & Hrun & Hdropped).
  - vm_compute. reflexivity.
  - discriminate.
  - repeat constructor; vm_compute; eauto.
  - vm_compute. reflexivity.
  - vm_compute. reflexivity.
  - vm_compute. reflexivity.
  - repeat constructor; eexists; cbv; reflexivity.
  - repeat constructor; eexists; cbv; reflexivity.
  - destruct (Hdropped Fixture.omega_entry "omega") as [Hwarning _].
    + apply list_elem_of_further, list_elem_of_here.
    + vm_compute. reflexivity.
    + vm_compute. reflexivity.
    + split; [| split].
      * unfold w'. rewrite Hrun. reflexivity.
      * unfold w'. rewrite Hrun. cbn [snd trace].
        apply elem_of_app. right. apply elem_of_app. left. exact Hwarning.
      * vm_compute. reflexivity.
Defined.

Lemma reload_of_written_manifest_throws_witness :
  let w := Fixture.world ["alpha.toml"; "beta.toml"] [] in
  let w' := (generateManifest "/addons" (Some "/manifest.json") w).2 in
  (generateManifest "/addons" (Some "/manifest.json") w).1 = Returned tt ∧
  files w' !! "/manifest.json" =
    Some (File (JSON_stringify (manifest_of
      [addAddonName (set_release (Some "v1.3.0") Fixture.alpha) "Alpha";
       addAddonName Fixture.beta "Beta"]))) ∧
  generateManifest "/addons" (Some "/manifest.json") w' =
    (Thrown (TypeError "existingManifest is not iterable"), w').
Proof.
  intros w w'. split; [| split].
  - vm_compute. reflexivity.
  - vm_compute. reflexivity.
  - apply (reload_of_written_manifest_throws "/addons" "/manifest.json" w'
             ["alpha.toml"; "beta.toml"]
             [addAddonName (set_release (Some "v1.3.0") Fixture.alpha) "Alpha";
              addAddonName Fixture.beta "Beta"]).
    + vm_compute. reflexivity.
    + discriminate.
    + repeat constructor; vm_compute; eauto.
    + vm_compute. reflexivity.
    + vm_compute. reflexivity.
    + vm_compute. reflexivity.
Defined.

(** * Further properties of the pipeline *)

(** ** What a run does to the files *)

Lemma keeps_files_ret {A} (a : A) : keeps_files (mret a : M A).
Proof. by intros w. Qed.

Lemma keeps_files_throw {A} error : keeps_files (throw error : M A).
Proof. by intros w. Qed.

Lemma keeps_files_lift {A} (o : outcome A) : keeps_files (lift o).
Proof. by intros w. Qed.

Lemma keeps_files_tell e : keeps_files (tell e).
Proof. by intros w. Qed.

Lemma keeps_files_existsSync path : keeps_files (existsSync path).
Proof. by intros w. Qed.

Lemma keeps_files_readdirSync path : keeps_files (readdirSync path).
Proof. intros w. unfold readdirSync. by destruct (files w !! path) as [[| |] |]. Qed.

Lemma keeps_files_readFileSync path : keeps_files (readFileSync path).
Proof. intros w. unfold readFileSync. by destruct (files w !! path) as [[| |] |]. Qed.

Lemma keeps_files_bind {A B} (m : M A) (f : A → M B) :
  keeps_files m → (∀ a, keeps_files (f a)) → keeps_files (m ≫= f).
Proof.
  intros Hm Hf w. specialize (Hm w). unfold mbind, M_bind.
  destruct (m w) as [[a | error |] w1]; simpl in *; try done.
  by rewrite Hf.
Qed.

Lemma keeps_files_try_catch {A} (m : M A) (handler : exn → M A) :
  keeps_files m → (∀ error, keeps_files (handler error)) →
  keeps_files (try_catch m handler).
Proof.
  intros Hm Hh w. specialize (Hm w). unfold try_catch.
  destruct (m w) as [[a | error |] w1]; simpl in *; try done.
  by rewrite Hh.
Qed.

Create HintDb frame.

#[export] Hint Resolve keeps_files_ret keeps_files_throw keeps_files_lift
  keeps_files_tell keeps_files_existsSync keeps_files_readdirSync
  keeps_files_readFileSync : frame.

Ltac frame :=
  repeat first
    [ apply keeps_files_bind; [| intros ?]
    | apply keeps_files_try_catch; [| intros ?]
    | progress eauto with frame ].

Section Frame.

Context `{Collaborators}.

Lemma keeps_files_reportErrors fileName filePath errors :
  keeps_files (reportErrors fileName filePath errors).
Proof. induction errors as [| validationError rest IH]; simpl; frame. Qed.

Lemma keeps_files_collectFile addonsPath fileName addons flag :
  keeps_files (collectFile addonsPath fileName addons flag).
Proof.
  unfold collectFile, parseConfig. frame.
  unfold onParseError. destruct (isZodErrorLike _); frame.
  apply keeps_files_reportErrors.
Qed.

Lemma keeps_files_collect addonsPath fileNames addons flag :
  keeps_files (collect addonsPath fileNames addons flag).
Proof.
  revert addons flag. induction fileNames as [| fileName rest IH];
    intros addons flag; simpl; [frame |].
  apply keeps_files_bind; [apply keeps_files_collectFile |].
  intros [addons' flag']. apply IH.
Qed.

Lemma keeps_files_mergeEntry existingAddon addons :
  keeps_files (mergeEntry existingAddon addons).
Proof. unfold mergeEntry. frame. destruct (find _ addons); frame. Qed.

Lemma keeps_files_mergeExisting existingManifest addons :
  keeps_files (mergeExisting existingManifest addons).
Proof.
  revert addons. induction existingManifest as [| existingAddon rest IH];
    intros addons; simpl; [frame |].
  apply keeps_files_bind; [apply keeps_files_mergeEntry | intros addons'; apply IH].
Qed.

Lemma keeps_files_carryForward manifestPath addons :
  keeps_files (carryForward manifestPath addons).
Proof.
  unfold carryForward. destruct manifestPath as [path |]; frame.
  case_bool_decide; frame. destruct a; frame.
  apply keeps_files_mergeExisting.
Qed.

Lemma keeps_files_updateAll addons : keeps_files (updateAll addons).
Proof. intros w. by rewrite updateAll_run. Qed.

Lemma writes_only_manifest_bind {A} manifestPath (m : M A) (f : A → M unit) w :
  keeps_files m →
  (∀ a w1, writes_only_manifest manifestPath w1 (f a w1)) →
  writes_only_manifest manifestPath w ((m ≫= f) w).
Proof.
  intros Hm Hf. specialize (Hm w). unfold mbind, M_bind.
  destruct (m w) as [[a | error |] w1]; simpl in *; try by left.
  specialize (Hf a w1). unfold writes_only_manifest in *. by rewrite <- Hm.
Qed.

Lemma writes_only_manifest_keeps manifestPath (m : M unit) w :
  keeps_files m → writes_only_manifest manifestPath w (m w).
Proof. intros Hm. left. apply Hm. Qed.

Lemma writes_only_manifest_output manifestPath addons w :
  writes_only_manifest manifestPath w (output manifestPath addons w).
Proof.
  unfold output. destruct manifestPath as [path |]; [| by left].
  case_bool_decide; [by left |].
  unfold writeFileSync. destruct (files w !! path) as [[| |] |]; try by left.
  - right. split; [done |]. eexists _, _. done.
  - destruct (create_error (files w) path); [by left |].
    right. split; [done |]. eexists _, _. done.
Qed.

Lemma generateManifest_writes_only_manifest addonsPath manifestPath w :
  writes_only_manifest manifestPath w (generateManifest addonsPath manifestPath w).
Proof.
  unfold generateManifest.
  apply writes_only_manifest_bind; [frame |]. intros present w1.
  destruct present; simpl; [| by left].
  case_bool_decide; [by left |].
  apply writes_only_manifest_bind; [frame |]. intros fileNames w2.
  apply writes_only_manifest_bind; [apply keeps_files_collect |].
  intros [addons [|]] w3; [by left |].
  apply writes_only_manifest_bind; [apply keeps_files_carryForward |].
  intros merged w4.
  apply writes_only_manifest_bind; [apply keeps_files_updateAll |].
  intros resolved w5. apply writes_only_manifest_output.
Qed.

(** X1.  A run changes at most one file.  When [generateManifest] throws,
    whatever the reason, every file is as it was before the run; when it
    returns, the only file that may differ is the one at the manifest path,
    and without a manifest path no file changes at all. *)
Theorem run_writes_only_the_manifest addonsPath manifestPath w :
  let result := generateManifest addonsPath manifestPath w in
  writes_only_manifest manifestPath w result ∧
  (result.1 ≠ Returned tt → files result.2 = files w) ∧
  (manifestPath = None → files result.2 = files w) ∧
  (∀ path, manifestPath = Some path → ∀ other, other ≠ path →
     files result.2 !! other = files w !! other).
Proof.
  intros result.
  pose proof (generateManifest_writes_only_manifest addonsPath manifestPath w)
    as Hwrites.
  fold result in Hwrites.
  split; [done |].
  destruct Hwrites as [Hsame | (Hreturned & path & data & Hpath & _ & Hfiles)].
  - repeat split; try done. intros path _ other _. by rewrite Hsame.
  - repeat split; try done.
    + congruence.
    + intros path' Hpath' other Hother. rewrite Hfiles.
      apply lookup_insert_ne. congruence.
Qed.

End Frame.

(** ** The checks before the scan, the scan and the two outputs *)

Section Routing.

Context `{Collaborators}.

(** X2.  An empty manifest path is rejected before any work: when
    something exists at [addonsPath], [generateManifest] with the path
    [''] throws [Invalid manifest path. Set to undefined to output to
    STDOUT.] and leaves the world as it was.  The check of the add-on
    directory comes first: when nothing exists at [addonsPath], the error
    is the one of the missing directory. *)
Theorem empty_manifest_path_is_rejected addonsPath w :
  (is_Some (files w !! addonsPath) →
   generateManifest addonsPath (Some EmptyString) w =
     (Thrown (Error "Invalid manifest path. Set to undefined to output to STDOUT."),
      w)) ∧
  (files w !! addonsPath = None →
   generateManifest addonsPath (Some EmptyString) w =
     (Thrown (Error ("Addon directory does not exist: " +:+ addonsPath)), w)).
Proof.
  unfold generateManifest, existsSync, mbind, M_bind. split.
  - intros Hsome. by rewrite bool_decide_true by done.
  - intros Hnone. rewrite Hnone. by rewrite bool_decide_false by (by intros [? ?]).
Qed.

Lemma all_valid addonsPath fs fileNames :
  Forall (λ fileName,
            ∃ config, check fs (path_join addonsPath fileName) = Some (inl config))
         fileNames →
  Forall (λ fileName, is_Some (check fs (path_join addonsPath fileName)))
         fileNames ∧
  existsb (fails_validation fs addonsPath) fileNames = false ∧
  Forall2 (λ fileName config,
             check fs (path_join addonsPath fileName) = Some (inl config))
          fileNames (valid_configs fs addonsPath fileNames).
Proof.
  induction 1 as [| fileName rest [config Hconfig] _ (IH1 & IH2 & IH3)].
  - repeat split; constructor.
  - split; [| split].
    + constructor; [by eexists | done].
    + simpl. unfold fails_validation at 1. by rewrite Hconfig.
    + unfold valid_configs. simpl. rewrite Hconfig. simpl. by constructor.
Qed.

(** X3.  The batch follows the directory: when every listed file holds a
    valid descriptor, the scan returns one add-on per file name, in the
    order in which [readdirSync] lists the names, each the add-on that the
    validator returns for the text of its file; the flag stays down and
    nothing is emitted. *)
Theorem batch_follows_directory_order addonsPath fileNames w :
  Forall (λ fileName,
            ∃ config,
              check (files w) (path_join addonsPath fileName) = Some (inl config))
         fileNames →
  ∃ batch,
    collect addonsPath fileNames [] false w = (Returned (batch, false), w) ∧
    Forall2 (λ fileName config,
               ∃ tomlContent table,
                 files w !! path_join addonsPath fileName = Some (File tomlContent) ∧
                 toml_parse tomlContent = inr table ∧
                 addonSchema_parse table = inr config)
            fileNames batch.
Proof.
  intros (Hall & Hnone & Horder)%all_valid.
  exists (valid_configs (files w) addonsPath fileNames). split.
  - rewrite collect_checked by done. rewrite Hnone.
    rewrite validation_reports_none by done. by rewrite world_nil.
  - eapply Forall2_impl; [exact Horder |].
    intros fileName config. unfold check.
    destruct (files w !! path_join addonsPath fileName) as [[tomlContent | |] |];
      try discriminate.
    destruct (toml_parse tomlContent) as [error | table] eqn:Hparse.
    { destruct (isZodErrorLike error); discriminate. }
    destruct (addonSchema_parse table) as [error | config'] eqn:Hschema.
    { destruct (isZodErrorLike error); discriminate. }
    intros [= ->]. by exists tomlContent, table.
Qed.

(** X4.  Output to the standard output: without a manifest path, a run over
    valid descriptors returns, writes no file, and the last thing it emits
    is the manifest, printed once with indentation on the console.  Before
    it come the calls of the resolvers and the reports of their failures,
    in the order of the batch. *)
Theorem manifest_goes_to_standard_output addonsPath w fileNames :
  files w !! addonsPath = Some (Dir fileNames) →
  Forall (λ fileName, is_Some (check (files w) (path_join addonsPath fileName)))
         fileNames →
  existsb (fails_validation (files w) addonsPath) fileNames = false →
  let batch := valid_configs (files w) addonsPath fileNames in
  generateManifest addonsPath None w =
    (Returned tt,
     mkWorld (files w)
       (trace w
        ++ flat_map (λ addon, resolver_calls addon ++ failure_events addon) batch
        ++ [console_log (JSON_stringify_indented
              (manifest_of ((λ addon, (resolve addon).1) <$> batch)))])).
Proof.
  intros Hdir Hall Hnone batch.
  rewrite (generateManifest_valid _ _ _ fileNames) by done.
  unfold carryForward. erewrite bind_returned by done.
  erewrite bind_returned by apply updateAll_run.
  unfold output, tell, emit. simpl. by rewrite <- app_assoc.
Qed.

(** X5.  Output to a file, first run: with a manifest path at which nothing
    exists yet, a run over valid descriptors skips the carry-forward step
    without a warning and calls the resolvers.  When the directory that is
    to hold the file exists, the run returns and puts at the path the
    compact text of the object with the one member [addons]: the array of
    one add-on per descriptor, in the order of the directory, each as its
    resolver left it; the manifest is not printed on the console.  When
    that directory is missing, or is no directory, the write throws: the
    run fails with the error of the write, after the resolvers ran, and no
    file is created. *)
Theorem first_run_writes_the_manifest addonsPath path w fileNames :
  files w !! addonsPath = Some (Dir fileNames) →
  path ≠ EmptyString →
  files w !! path = None →
  Forall (λ fileName, is_Some (check (files w) (path_join addonsPath fileName)))
         fileNames →
  existsb (fails_validation (files w) addonsPath) fileNames = false →
  let batch := valid_configs (files w) addonsPath fileNames in
  let events :=
    flat_map (λ addon, resolver_calls addon ++ failure_events addon) batch in
  let manifest :=
    JObj [("addons",
           JArr ((λ addon, addon_to_json (resolve addon).1) <$> batch))] in
  (create_error (files w) path = None →
   generateManifest addonsPath (Some path) w =
     (Returned tt,
      mkWorld (<[path := File (JSON_stringify manifest)]> (files w))
              (trace w ++ events))) ∧
  (∀ error, create_error (files w) path = Some error →
   generateManifest addonsPath (Some path) w =
     (Thrown error, mkWorld (files w) (trace w ++ events))).
Proof.
  intros Hdir Hpath Hfresh Hall Hnone batch events manifest.
  rewrite (generateManifest_valid _ _ _ fileNames) by (done || congruence).
  erewrite bind_returned
    by (apply carryForward_no_manifest; by intros ? [= <-]).
  erewrite bind_returned by apply updateAll_run.
  unfold output, manifest_of, writeFileSync. rewrite bool_decide_false by done.
  rewrite <- list_fmap_compose. simpl. rewrite Hfresh.
  split.
  - by intros ->.
  - by intros error ->.
Qed.

(** X6.  The resolution step never fails and never drops an add-on:
    whichever resolvers throw, even all of them, the loop returns a batch
    of the same length, writes no file, calls the resolver of each add-on
    once, in the order of the batch and with the add-on as the batch holds
    it, and reports each failure right after the call that failed. *)
Theorem resolution_never_fails addons w :
  ∃ resolved w',
    updateAll addons w = (Returned resolved, w') ∧
    length resolved = length addons ∧
    files w' = files w ∧
    trace w' =
      trace w
      ++ flat_map (λ addon, resolver_calls addon ++ failure_events addon) addons ∧
    ∀ i addon, addons !! i = Some addon →
      resolved !! i = Some (resolve addon).1.
Proof.
  eexists _, _. split; [apply updateAll_run |].
  split; [by rewrite length_fmap |]. split; [done |]. split; [done |].
  intros i addon Hi. by rewrite list_lookup_fmap, Hi.
Qed.

End Routing.

(** ** More on the carry-forward step *)

Section CarryForwardEdges.

Context `{Collaborators}.

Lemma mergeEntry_typed existingAddon addons w :
  typed_entry existingAddon →
  ∃ addons1 w1, mergeEntry existingAddon addons w = (Returned addons1, w1).
Proof.
  intros ((existingId & Hid) & (r & Hr) & (p & Hp) & (n & Hn)).
  unfold mergeEntry, mbind, M_bind, lift, tell, mret, M_ret.
  rewrite Hid, Hr, Hp, Hn.
  destruct (find (same_id existingId) addons); eauto.
Qed.

(** The loop stops at the first entry whose id cannot be read; the entries
    before it were merged, the entries after it are not looked at. *)
Lemma mergeExisting_thrown before existingAddon after error addons w :
  Forall typed_entry before →
  existing_id existingAddon = Thrown error →
  mergeExisting (before ++ existingAddon :: after) addons w =
    (Thrown error,
     mkWorld (files w) (trace w ++ removal_warnings addons before)).
Proof.
  intros Hall Hid. revert addons w.
  induction Hall as [| first rest Htyped _ IH]; intros addons w.
  - simpl. erewrite bind_thrown.
    + by rewrite world_nil.
    + unfold mergeEntry, mbind, M_bind, lift. by rewrite Hid.
  - destruct (mergeEntry_typed first addons w Htyped) as (addons1 & w1 & Hentry).
    rewrite <- app_comm_cons. cbn [mergeExisting].
    erewrite bind_returned by exact Hentry. rewrite IH.
    pose proof (mergeEntry_identity _ _ _ _ _ Hentry) as Hid1.
    rewrite (removal_warnings_identity addons1 addons) by done.
    rewrite removal_warnings_cons.
    apply mergeEntry_returned in Hentry
      as (existingId & -> & [(-> & _ & ->) | (Hfound & -> & _)]).
    + simpl. by rewrite <- app_assoc.
    + by destruct (find (same_id existingId) addons).
Qed.

Lemma existing_id_without_package existingAddon :
  existingAddon ≠ JNull →
  prop "package" existingAddon = None →
  existing_id existingAddon =
    Thrown (TypeError "Cannot read properties of undefined (reading 'id')").
Proof.
  intros Hnull Hpackage. unfold existing_id, get.
  destruct existingAddon; try done; simpl in *; by rewrite ?Hpackage.
Qed.

(** X7.  An entry without [package] stops the run: when the array at the
    manifest path holds an entry that has no member [package], a run over
    valid descriptors throws [TypeError: Cannot read properties of
    undefined (reading 'id')] when the loop reaches it.  The entries before
    it gave their warnings, the entries after it are not looked at, no
    resolver is called and no file is written. *)
Theorem entry_without_package_stops_the_run addonsPath path w fileNames text
    before existingAddon after :
  files w !! addonsPath = Some (Dir fileNames) →
  path ≠ EmptyString →
  Forall (λ fileName, is_Some (check (files w) (path_join addonsPath fileName)))
         fileNames →
  existsb (fails_validation (files w) addonsPath) fileNames = false →
  files w !! path = Some (File text) →
  JSON_parse text = inr (JArr (before ++ existingAddon :: after)) →
  Forall typed_entry before →
  existingAddon ≠ JNull →
  prop "package" existingAddon = None →
  generateManifest addonsPath (Some path) w =
    (Thrown (TypeError "Cannot read properties of undefined (reading 'id')"),
     mkWorld (files w)
       (trace w ++ removal_warnings (valid_configs (files w) addonsPath fileNames)
                                    before)).
Proof.
  intros Hdir Hpath Hall Hnone Hfile Hparse Htyped Hnull Hpackage.
  rewrite (generateManifest_valid _ _ _ fileNames) by (done || congruence).
  apply bind_thrown.
  rewrite (carryForward_array _ text (before ++ existingAddon :: after)) by done.
  apply mergeExisting_thrown; [done |].
  by apply existing_id_without_package.
Qed.

(** X8.  A manifest that cannot be loaded stops the run before any
    resolution, with the world as it was: when a directory is at the
    manifest path the error is the one of [readFileSync], [EISDIR: illegal
    operation on a directory, read], which names no path; when the text of
    the file is no JSON it is the error of [JSON.parse]; and when the text
    is JSON for anything but an array or a string (an object, a number, a
    boolean, [null]) it is [TypeError: existingManifest is not iterable]. *)
Theorem manifest_that_cannot_be_loaded addonsPath path w fileNames :
  files w !! addonsPath = Some (Dir fileNames) →
  path ≠ EmptyString →
  Forall (λ fileName, is_Some (check (files w) (path_join addonsPath fileName)))
         fileNames →
  existsb (fails_validation (files w) addonsPath) fileNames = false →
  (∀ names, files w !! path = Some (Dir names) →
     generateManifest addonsPath (Some path) w =
       (Thrown (DescriptorError "EISDIR" "illegal operation on a directory" "read"),
        w) ∧
     errorMessage (DescriptorError "EISDIR" "illegal operation on a directory" "read")
       = "EISDIR: illegal operation on a directory, read") ∧
  (∀ text error, files w !! path = Some (File text) →
     JSON_parse text = inl error →
     generateManifest addonsPath (Some path) w = (Thrown error, w)) ∧
  (∀ text value, files w !! path = Some (File text) →
     JSON_parse text = inr value →
     (∀ items, value ≠ JArr items) → (∀ s, value ≠ JStr s) →
     generateManifest addonsPath (Some path) w =
       (Thrown (TypeError "existingManifest is not iterable"), w)).
Proof.
  intros Hdir Hpath Hall Hnone.
  rewrite (generateManifest_valid _ _ _ fileNames) by (done || congruence).
  split; [| split].
  - intros names Hfile. split; [| done]. apply bind_thrown.
    unfold carryForward, existsSync, readFileSync, mbind at 1 2, M_bind.
    rewrite bool_decide_false by done. rewrite Hfile.
    rewrite bool_decide_true by done. cbv beta. by rewrite Hfile.
  - intros text error Hfile Hparse. apply bind_thrown.
    unfold carryForward, existsSync, readFileSync, mbind at 1 2 3, M_bind, lift.
    rewrite bool_decide_false by done. rewrite Hfile.
    rewrite bool_decide_true by done. cbv beta. by rewrite Hfile, Hparse.
  - intros text value Hfile Hparse Harray Hstring. apply bind_thrown.
    unfold carryForward, existsSync, readFileSync, mbind at 1 2 3 4, M_bind, lift.
    rewrite bool_decide_false by done. rewrite Hfile.
    rewrite bool_decide_true by done. cbv beta. rewrite Hfile, Hparse.
    destruct value as [| b | n | s | items | members]; simpl; try done.
    + by destruct (Hstring s).
    + by destruct (Harray items).
Qed.

Lemma first_or_later (addons : list Addon) i addon :
  addons !! i = Some addon →
  first_with_id addons i addon ∨
  ∃ j other, j < i ∧ addons !! j = Some other ∧
    id (package other) = id (package addon).
Proof.
  intros Hi.
  destruct (decide (Exists (λ other, id (package other) = id (package addon))
                           (take i addons))) as [Hex | Hnone].
  - right. apply Exists_exists in Hex as (other & Hin & Hsame).
    apply list_elem_of_lookup in Hin as [j Hj].
    apply lookup_take_Some in Hj as [Hj Hlt]. by exists j, other.
  - left. split; [done |]. intros j other Hj Hother Hsame. apply Hnone.
    apply Exists_exists. exists other. split; [| done].
    apply list_elem_of_lookup. exists j. by apply lookup_take_Some.
Qed.

(** X9.  What the carry-forward loop leaves alone: it never adds, removes
    or reorders an add-on, never changes the [package] or the [host] of
    one, never writes a file, and an add-on whose [package.id] is the id of
    no entry of the loaded manifest leaves the loop exactly as it entered
    it. *)
Theorem carry_forward_keeps_the_batch existingManifest addons w merged w' :
  mergeExisting existingManifest addons w = (Returned merged, w') →
  length merged = length addons ∧
  package <$> merged = package <$> addons ∧
  host <$> merged = host <$> addons ∧
  files w' = files w ∧
  ∀ i addon, addons !! i = Some addon →
    last_entry (id (package addon)) existingManifest = None →
    merged !! i = Some addon.
Proof.
  intros Hmerge.
  destruct (mergeExisting_frame _ _ _ _ _ Hmerge) as (Hid & Hfiles & _).
  split; [| split; [| split; [| split]]]; try done.
  - apply (f_equal length) in Hid. by rewrite !length_fmap in Hid.
  - apply (f_equal (fmap fst)) in Hid. by rewrite <- !list_fmap_compose in Hid.
  - apply (f_equal (fmap snd)) in Hid. by rewrite <- !list_fmap_compose in Hid.
  - intros i addon Hi Hlast.
    destruct (first_or_later _ _ _ Hi) as [Hfirst | (j & other & Hj & Hother & Hsame)].
    + destruct (mergeExisting_first _ _ _ _ _ _ _ Hfirst Hmerge)
        as (addon' & Hi' & _ & Hsame).
      rewrite Hlast in Hsame. by subst addon'.
    + by apply (mergeExisting_later existingManifest addons w merged w' i addon j other).
Qed.

End CarryForwardEdges.

(** ** Reading back what was written *)

Lemma as_strings_fmap names : as_strings (JStr <$> names) = Returned names.
Proof.
  induction names as [| name rest IH]; [done |].
  rewrite fmap_cons. simpl. by rewrite IH.
Qed.

Lemma existing_id_written addon :
  existing_id (addon_to_json addon) = Returned (Some (JStr (id (package addon)))).
Proof. done. Qed.

Lemma has_id_written id0 addon :
  has_id id0 (addon_to_json addon) = String.eqb id0 (id (package addon)).
Proof. unfold has_id. by rewrite existing_id_written. Qed.

Lemma carried_from_written addon : carried_from (addon_to_json addon) addon.
Proof.
  destruct addon as [pkg hst [r |] [p |] [n |]];
    repeat split; simpl; rewrite ?as_strings_fmap; done.
Qed.

Lemma typed_entry_written addon : typed_entry (addon_to_json addon).
Proof.
  destruct (carried_from_written addon) as (Hr & Hp & Hn).
  split; [by eexists |]. split; [by eexists |]. split; by eexists.
Qed.

Lemma flat_map_all_nil {A B} (f : A → list B) (l : list A) :
  (∀ x, x ∈ l → f x = []) → flat_map f l = [].
Proof.
  induction l as [| x l IH]; [done |]. intros Hall. simpl.
  rewrite (Hall x) by apply list_elem_of_here.
  apply IH. intros y Hy. apply Hall. by apply list_elem_of_further.
Qed.

Lemma last_entry_Some id0 existingManifest existingAddon :
  last_entry id0 existingManifest = Some existingAddon →
  existingAddon ∈ existingManifest ∧ has_id id0 existingAddon = true.
Proof.
  induction existingManifest as [| first rest IH]; [done |]. simpl.
  destruct (last_entry id0 rest) as [later |].
  - intros [= ->]. destruct IH as [Hin Hid]; [done |].
    split; [by apply list_elem_of_further | done].
  - destruct (has_id id0 first) eqn:Hfirst; [| done].
    intros [= ->]. split; [apply list_elem_of_here | done].
Qed.

Lemma last_entry_None id0 existingManifest existingAddon :
  last_entry id0 existingManifest = None →
  existingAddon ∈ existingManifest → has_id id0 existingAddon = false.
Proof.
  induction existingManifest as [| first rest IH]; [by intros _ ?%elem_of_nil |].
  simpl. destruct (last_entry id0 rest) as [later |]; [done |].
  destruct (has_id id0 first) eqn:Hfirst; [done |].
  intros _ [-> | Hin]%elem_of_cons; [done | by apply IH].
Qed.

Lemma addon_eq (a b : Addon) :
  identity a = identity b → release a = release b →
  prerelease a = prerelease b → addon_names a = addon_names b → a = b.
Proof.
  destruct a, b. unfold identity. simpl. intros [= -> ->] -> -> ->. done.
Qed.

Section ArrayRoundTrip.

Context `{Collaborators}.

(** X11.  Carry-forward from an array is a round trip: when the loaded
    manifest is the array of the add-ons of an earlier run, as
    [JSON.stringify] sees them, and the new batch has the same descriptors
    (the same [package] and [host], in the same order, with ids that are
    all different), the loop rebuilds exactly the add-ons of the earlier
    run: every [release], [prerelease] and [addon_names] is back, and no
    warning is emitted. *)
Theorem array_of_written_entries_round_trips old batch w :
  NoDup ((λ addon, id (package addon)) <$> batch) →
  identity <$> batch = identity <$> old →
  mergeExisting (addon_to_json <$> old) batch w = (Returned old, w).
Proof.
  intros Hnodup Hid.
  assert (∀ i addon, batch !! i = Some addon → first_with_id batch i addon)
    as Hfirst.
  { intros i addon Hi. split; [done |]. intros j other Hj Hother Hsame.
    assert (j = i); [| lia].
    apply (NoDup_lookup _ j i (id (package addon)) Hnodup).
    - rewrite list_lookup_fmap, Hother. simpl. congruence.
    - by rewrite list_lookup_fmap, Hi. }
  assert (Forall typed_entry (addon_to_json <$> old)) as Htyped.
  { apply Forall_fmap, Forall_forall. intros o _. apply typed_entry_written. }
  destruct (mergeExisting_typed _ batch w Htyped) as (merged & w' & Hmerge).
  destruct (mergeExisting_frame _ _ _ _ _ Hmerge) as (Hmid & Hfiles & Htrace).
  assert (removal_warnings batch (addon_to_json <$> old) = []) as Hquiet.
  { unfold removal_warnings. apply flat_map_all_nil. intros entry Hentry.
    apply list_elem_of_fmap in Hentry as (o & -> & Ho).
    rewrite existing_id_written.
    apply list_elem_of_lookup in Ho as [k Hk].
    destruct (identity_lookup old batch k o (eq_sym Hid) Hk) as (a & Ha & Hao).
    destruct (find (same_id (Some (JStr (id (package o))))) batch) eqn:Hfind;
      [done |].
    apply (find_none_lookup _ _ _ _ Hfind) in Ha.
    assert (same_id (Some (JStr (id (package o)))) a = true) as Htrue
      by (apply same_id_true; unfold identity in Hao; congruence).
    congruence. }
  assert (merged = old) as ->.
  { apply list_eq. intros i.
    destruct (old !! i) as [o |] eqn:Ho.
    - destruct (identity_lookup old batch i o (eq_sym Hid) Ho) as (a & Ha & Hao).
      destruct (mergeExisting_first _ _ _ _ _ _ _ (Hfirst i a Ha) Hmerge)
        as (a' & Hi' & Hida & Hlast).
      rewrite Hi'. f_equal.
      destruct (last_entry (id (package a)) (addon_to_json <$> old))
        as [entry |] eqn:Hentry.
      + apply last_entry_Some in Hentry as [Hin Hhas].
        apply list_elem_of_fmap in Hin as (o' & -> & Ho').
        rewrite has_id_written in Hhas. apply String.eqb_eq in Hhas.
        apply list_elem_of_lookup in Ho' as [k Hk].
        destruct (identity_lookup old batch k o' (eq_sym Hid) Hk)
          as (a2 & Ha2 & Hao2).
        assert (k = i) as ->.
        { apply (NoDup_lookup _ k i (id (package a)) Hnodup).
          - rewrite list_lookup_fmap, Ha2. simpl.
            unfold identity in Hao2. congruence.
          - by rewrite list_lookup_fmap, Ha. }
        assert (o' = o) as -> by congruence.
        destruct Hlast as (Hr & Hp & Hn).
        destruct (carried_from_written o) as (Hr' & Hp' & Hn').
        apply addon_eq; congruence.
      + exfalso.
        assert (has_id (id (package a)) (addon_to_json o) = false) as Hfalse.
        { apply (last_entry_None _ _ _ Hentry).
          apply list_elem_of_fmap. exists o. split; [done |].
          apply list_elem_of_lookup. by exists i. }
        rewrite has_id_written in Hfalse. apply String.eqb_neq in Hfalse.
        unfold identity in Hao. congruence.
    - apply lookup_ge_None. apply lookup_ge_None in Ho.
      apply (f_equal length) in Hmid, Hid. rewrite !length_fmap in Hmid, Hid. lia. }
  rewrite Hmerge. f_equal.
  rewrite Hquiet, app_nil_r in Htrace. destruct w, w'. simpl in *. congruence.
Qed.

End ArrayRoundTrip.

(** ** More on addAddonName *)

Lemma addAddonName_step addon name :
  default [] (addon_names (addAddonName addon name)) =
    if includes (default [] (addon_names addon)) name
    then default [] (addon_names addon)
    else default [] (addon_names addon) ++ [name].
Proof.
  rewrite addAddonName_names. by destruct (addon_names addon) as [names |].
Qed.

Lemma addAddonName_frame addon name :
  identity (addAddonName addon name) = identity addon ∧
  release (addAddonName addon name) = release addon ∧
  prerelease (addAddonName addon name) = prerelease addon.
Proof.
  unfold addAddonName. destruct (addon_names addon) as [names |]; [| done].
  by destruct (includes names name).
Qed.

(** X12.  Names accumulate without duplicates: calling [addAddonName] with
    each name of a list in turn, on an add-on whose names are all
    different, leaves names that are all different.  The names the add-on
    had come first, in the order they had; a name is there afterwards
    exactly when it was there before or is in the list; and nothing but
    [addon_names] changes. *)
Theorem names_accumulate_without_duplicates addon names :
  NoDup (default [] (addon_names addon)) →
  let result := foldl addAddonName addon names in
  NoDup (default [] (addon_names result)) ∧
  default [] (addon_names addon) `prefix_of` default [] (addon_names result) ∧
  (∀ name, name ∈ default [] (addon_names result) ↔
           name ∈ default [] (addon_names addon) ∨ name ∈ names) ∧
  identity result = identity addon ∧
  release result = release addon ∧
  prerelease result = prerelease addon.
Proof.
  revert addon. induction names as [| name rest IH]; intros addon Hnodup; simpl.
  - repeat split; try done.
    + by left.
    + by intros [? | ?%elem_of_nil].
  - destruct (addAddonName_frame addon name) as (Hid & Hrel & Hpre).
    pose proof (addAddonName_step addon name) as Hstep.
    assert (NoDup (default [] (addon_names (addAddonName addon name)))) as Hnodup'.
    { rewrite Hstep.
      destruct (includes _ name) eqn:Hin; [done |].
      apply includes_false in Hin. apply NoDup_app. split; [done |].
      split; [| apply NoDup_singleton].
      by intros x Hx ->%list_elem_of_singleton. }
    destruct (IH (addAddonName addon name) Hnodup')
      as (IHnodup & IHprefix & IHmem & IHid & IHrel & IHpre).
    split; [done |]. split; [| split; [| by rewrite IHid, IHrel, IHpre]].
    + etrans; [| exact IHprefix]. rewrite Hstep.
      destruct (includes _ name); [done | by apply prefix_app_r].
    + intros x. rewrite IHmem, Hstep, elem_of_cons.
      destruct (includes _ name) eqn:Hin.
      * apply includes_true in Hin. split; [tauto |].
        intros [? | [-> | ?]]; tauto.
      * rewrite elem_of_app, list_elem_of_singleton. tauto.
Qed.

(** ** The entry point of the action *)

Section RunnerProperties.

Context `{Collaborators} `{Inputs}.

Lemma runBody_failure_writes_nothing w r w' :
  runBody w = (r, w') → r ≠ Returned tt → files w' = files w.
Proof.
  unfold runBody, mbind, M_bind, lift.
  destruct (getInput "addons_path" true) as [error | addonsPathInput]; simpl;
    [by intros [= <- <-] |].
  destruct (getInput "manifest_path" false) as [error | manifestPathInput]; simpl;
    [by intros [= <- <-] |].
  intros Hrun Hfailed.
  pose proof (generateManifest_writes_only_manifest
                (path_resolve addonsPathInput)
                (if bool_decide (manifestPathInput = EmptyString) then None
                 else Some (path_resolve manifestPathInput)) w) as Hwrites.
  rewrite Hrun in Hwrites. by destruct Hwrites as [? | [? _]].
Qed.

(** X13.  [run] catches every error.  It never throws.  When reading an
    input or [generateManifest] throws, [run] prints the message of the
    error on the console, hands it to [core.setFailed], which reports it
    and sets the exit code to 1, and every file is as it was before the
    run.  Otherwise [run] adds nothing to what [generateManifest] did and
    leaves the exit code alone. *)
Theorem run_catches_every_error p :
  (∀ error, (run p).1 ≠ Thrown error) ∧
  ((∃ error w,
      runBody (world p) = (Thrown error, w) ∧
      run p =
        (Returned tt,
         mkProcess
           (mkWorld (files (world p))
              (trace w ++ [console_log (errorMessage error);
                           core_error (errorMessage error) None]))
           (Some 1))) ∨
   ((∀ error, (runBody (world p)).1 ≠ Thrown error) ∧
    run p = ((runBody (world p)).1,
             mkProcess (runBody (world p)).2 (exitCode p)))).
Proof.
  unfold run. destruct (runBody (world p)) as [[[] | error |] w] eqn:Hbody.
  - split; [done |]. right. by split.
  - split; [done |]. left. exists error, w. split; [done |].
    unfold setFailed. simpl. rewrite emit_emit_trace.
    by rewrite (runBody_failure_writes_nothing _ _ _ Hbody).
  - split; [done |]. right. by split.
Qed.

(** X14.  With an empty [manifest_path] input the action prints the
    manifest: [run] calls [generateManifest] on the resolved add-on path
    without a manifest path, so that over valid descriptors it returns,
    writes no file, leaves the exit code alone and ends with the indented
    manifest on the console. *)
Theorem run_without_manifest_path_prints p addonsPathInput fileNames :
  getInput "addons_path" true = inr addonsPathInput →
  getInput "manifest_path" false = inr EmptyString →
  let addonsPath := path_resolve addonsPathInput in
  let fs := files (world p) in
  fs !! addonsPath = Some (Dir fileNames) →
  Forall (λ fileName, is_Some (check fs (path_join addonsPath fileName)))
         fileNames →
  existsb (fails_validation fs addonsPath) fileNames = false →
  let batch := valid_configs fs addonsPath fileNames in
  run p =
    (Returned tt,
     mkProcess
       (mkWorld fs
          (trace (world p)
           ++ flat_map (λ addon, resolver_calls addon ++ failure_events addon) batch
           ++ [console_log (JSON_stringify_indented
                 (manifest_of ((λ addon, (resolve addon).1) <$> batch)))]))
       (exitCode p)).
Proof.
  intros Haddons Hmanifest addonsPath fs Hdir Hall Hnone batch.
  unfold run, runBody, mbind at 1 2, M_bind, lift.
  rewrite Haddons, Hmanifest. simpl.
  rewrite (generateManifest_valid _ _ _ fileNames) by done.
  unfold carryForward. erewrite bind_returned by done.
  erewrite bind_returned by apply updateAll_run.
  unfold output, tell, emit. simpl. by rewrite <- app_assoc.
Qed.

End RunnerProperties.

(** ** Merging twice *)

Section MergeTwice.

Context `{Collaborators}.

(** Whether one turn of the loop returns depends on the entry and on the
    ids of the batch only. *)
Lemma mergeEntry_returns_identity existingAddon addons1 addons2 w1 w2 merged1 w1' :
  identity <$> addons1 = identity <$> addons2 →
  mergeEntry existingAddon addons1 w1 = (Returned merged1, w1') →
  ∃ merged2 w2',
    mergeEntry existingAddon addons2 w2 = (Returned merged2, w2') ∧
    identity <$> merged1 = identity <$> merged2.
Proof.
  intros Hid Hentry.
  pose proof (mergeEntry_identity _ _ _ _ _ Hentry) as Hid1.
  apply mergeEntry_returned in Hentry as (existingId & Hex & Hcase).
  unfold mergeEntry, mbind, M_bind, lift, tell, mret, M_ret. rewrite Hex.
  destruct (find (same_id existingId) addons2) as [found |] eqn:Hfind2.
  - destruct Hcase as [(Hnone & _) | (_ & _ & r & p & n & -> & -> & -> & _)].
    + apply (find_identity _ addons1 addons2) in Hnone; [congruence | | done].
      apply same_id_identity.
    + eexists _, _. split; [done |].
      rewrite Hid1, Hid. symmetry. apply assign_found_identity, carry_identity.
  - eexists _, _. split; [done |]. by rewrite Hid1.
Qed.

Lemma mergeExisting_returns_identity existingManifest addons1 addons2 w1 w2
    merged1 w1' :
  identity <$> addons1 = identity <$> addons2 →
  mergeExisting existingManifest addons1 w1 = (Returned merged1, w1') →
  ∃ merged2 w2', mergeExisting existingManifest addons2 w2 = (Returned merged2, w2').
Proof.
  revert addons1 addons2 w1 w2.
  induction existingManifest as [| existingAddon rest IH];
    intros addons1 addons2 w1 w2 Hid Hmerge.
  - by eexists _, _.
  - simpl in Hmerge.
    apply bind_returned_inv in Hmerge as (next1 & v1 & Hentry & Hrest).
    destruct (mergeEntry_returns_identity _ _ addons2 _ w2 _ _ Hid Hentry)
      as (next2 & v2 & Hentry2 & Hnext).
    destruct (IH _ next2 _ v2 Hnext Hrest) as (merged2 & w2' & Hrest2).
    exists merged2, w2'. simpl. by erewrite bind_returned.
Qed.

(** X15.  Merging twice is merging once: when the carry-forward loop
    returns, running it again with the same loaded manifest on the batch
    it returned gives that batch back. *)
Theorem carry_forward_is_idempotent existingManifest addons w merged w' v :
  mergeExisting existingManifest addons w = (Returned merged, w') →
  ∃ v', mergeExisting existingManifest merged v = (Returned merged, v').
Proof.
  intros Hmerge.
  destruct (mergeExisting_frame _ _ _ _ _ Hmerge) as (Hid & _ & _).
  destruct (mergeExisting_returns_identity _ _ merged _ v _ _ (eq_sym Hid) Hmerge)
    as (again & v' & Hagain).
  destruct (mergeExisting_frame _ _ _ _ _ Hagain) as (Hid2 & _ & _).
  exists v'. rewrite Hagain. f_equal. f_equal.
  apply list_eq. intros i.
  destruct (merged !! i) as [m |] eqn:Hm.
  - destruct (identity_lookup _ _ _ _ Hid Hm) as (a & Ha & Hma).
    destruct (first_or_later _ _ _ Ha)
      as [Hfirst | (j & other & Hj & Hother & Hsame)].
    + destruct (mergeExisting_first _ _ _ _ _ _ _ Hfirst Hmerge)
        as (m1 & Hm1 & _ & Hlast1).
      assert (m1 = m) as -> by congruence.
      assert (first_with_id merged i m) as Hfirst2
        by (by apply (first_with_id_identity addons merged i a m)).
      destruct (mergeExisting_first _ _ _ _ _ _ _ Hfirst2 Hagain)
        as (m2 & Hm2 & Hid' & Hlast2).
      rewrite Hm2. f_equal.
      assert (id (package m) = id (package a)) as Hsame
        by (unfold identity in Hma; congruence).
      rewrite Hsame in Hlast2.
      destruct (last_entry (id (package a)) existingManifest); [| done].
      destruct Hlast1 as (Hr1 & Hp1 & Hn1), Hlast2 as (Hr2 & Hp2 & Hn2).
      apply addon_eq; congruence.
    + destruct (identity_lookup _ _ _ _ (eq_sym Hid) Hother) as (mj & Hmj & Hmja).
      apply (mergeExisting_later existingManifest merged v again v' i m j mj);
        try done.
      unfold identity in *. congruence.
  - apply lookup_ge_None. apply lookup_ge_None in Hm.
    apply (f_equal length) in Hid2. rewrite !length_fmap in Hid2. lia.
Qed.

End MergeTwice.

(** * The further properties on a concrete directory *)

Lemma run_writes_only_the_manifest_witness :
  let failing := Fixture.world ["alpha.toml"; "broken.toml"] [] in
  let valid := Fixture.world ["alpha.toml"; "beta.toml"] [] in
  files (generateManifest "/addons" (Some "/manifest.json") failing).2
    = files failing ∧
  files (generateManifest "/addons" None valid).2 = files valid ∧
  files (generateManifest "/addons" (Some "/manifest.json") valid).2
    !! "/addons/alpha.toml" = files valid !! "/addons/alpha.toml".
Proof.
  intros failing valid.
  destruct (run_writes_only_the_manifest "/addons" (Some "/manifest.json") failing)
    as (_ & Hfailed & _ & _).
  destruct (run_writes_only_the_manifest "/addons" None valid)
    as (_ & _ & Hconsole & _).
  destruct (run_writes_only_the_manifest "/addons" (Some "/manifest.json") valid)
    as (_ & _ & _ & Hother).
  split; [| split].
  - apply Hfailed. vm_compute. discriminate.
  - apply Hconsole. reflexivity.
  - apply (Hother "/manifest.json"); [reflexivity | discriminate].
Defined.

Lemma empty_manifest_path_is_rejected_witness :
  let w := Fixture.world ["alpha.toml"] [] in
  generateManifest "/addons" (Some EmptyString) w =
    (Thrown (Error "Invalid manifest path. Set to undefined to output to STDOUT."),
     w) ∧
  generateManifest "/plugins" (Some EmptyString) w =
    (Thrown (Error "Addon directory does not exist: /plugins"), w).
Proof.
  intros w.
  destruct (empty_manifest_path_is_rejected "/addons" w) as [Hempty _].
  destruct (empty_manifest_path_is_rejected "/plugins" w) as [_ Hmissing].
  split.
  - apply Hempty. exists (Dir ["alpha.toml"]). vm_compute. reflexivity.
  - apply Hmissing. vm_compute. reflexivity.
Defined.

Lemma batch_follows_directory_order_witness :
  let w := Fixture.world ["gamma.toml"; "alpha.toml"] [] in
  ∃ batch,
    collect "/addons" ["gamma.toml"; "alpha.toml"] [] false w
      = (Returned (batch, false), w) ∧
    Forall2 (λ fileName config,
               ∃ tomlContent table,
                 files w !! path_join "/addons" fileName = Some (File tomlContent) ∧
                 toml_parse tomlContent = inr table ∧
                 addonSchema_parse table = inr config)
            ["gamma.toml"; "alpha.toml"] batch.
Proof.
  intros w.
  apply (batch_follows_directory_order "/addons" ["gamma.toml"; "alpha.toml"] w).
  apply Forall_cons. split.
  - exists Fixture.gamma. vm_compute. reflexivity.
  - apply Forall_cons. split; [| apply Forall_nil].
    + exists Fixture.alpha. vm_compute. reflexivity.
    + exact I.
Defined.

Lemma manifest_goes_to_standard_output_witness :
  let w := Fixture.world ["alpha.toml"; "beta.toml"] [] in
  let message := "Addon Beta failed to update: version check timed out" in
  generateManifest "/addons" None w =
    (Returned tt,
     mkWorld (files w)
       [resolve_github Fixture.alpha (JObj [("repo", JStr "acme/alpha")]);
        resolve_standalone Fixture.beta
          (JObj [("url", JStr "https://example.org/beta.zip")]);
        core_error message None;
        console_log message;
        console_log (JSON_stringify_indented (manifest_of
          [addAddonName (set_release (Some "v1.3.0") Fixture.alpha) "Alpha";
           addAddonName Fixture.beta "Beta"]))]).
Proof.
  intros w message.
  rewrite (manifest_goes_to_standard_output "/addons" w ["alpha.toml"; "beta.toml"]).
  - vm_compute. reflexivity.
  - vm_compute. reflexivity.
  - repeat constructor; vm_compute; eauto.
  - vm_compute. reflexivity.
Defined.

Lemma first_run_writes_the_manifest_witness :
  let w := Fixture.world ["alpha.toml"; "gamma.toml"] [("/out", Dir [])] in
  let manifest :=
    JObj [("addons", JArr [
      JObj [("package", JObj [("id", JStr "alpha"); ("name", JStr "Alpha")]);
            ("host", JObj [("github", JObj [("repo", JStr "acme/alpha")])]);
            ("release", JStr "v1.3.0");
            ("addon_names", JArr [JStr "Alpha"])];
      JObj [("package", JObj [("id", JStr "gamma"); ("name", JStr "Gamma")]);
            ("host", JObj [("github", JObj [("repo", JStr "acme/gamma")])]);
            ("release", JStr "v0.9.1");
            ("addon_names", JArr [JStr "Gamma"])]])] in
  let events :=
    [resolve_github Fixture.alpha (JObj [("repo", JStr "acme/alpha")]);
     resolve_github Fixture.gamma (JObj [("repo", JStr "acme/gamma")])] in
  generateManifest "/addons" (Some "/out/manifest.json") w =
    (Returned tt,
     mkWorld (<["/out/manifest.json" := File (JSON_stringify manifest)]> (files w))
             events) ∧
  generateManifest "/addons" (Some "/nodir/manifest.json") w =
    (Thrown (SystemError "ENOENT" "no such file or directory" "open"
               "/nodir/manifest.json"),
     mkWorld (files w) events).
Proof.
  intros w manifest events.
  destruct (first_run_writes_the_manifest "/addons" "/out/manifest.json" w
              ["alpha.toml"; "gamma.toml"]) as [Hwritten _].
  { vm_compute. reflexivity. }
  { discriminate. }
  { vm_compute. reflexivity. }
  { repeat constructor; vm_compute; eauto. }
  { vm_compute. reflexivity. }
  destruct (first_run_writes_the_manifest "/addons" "/nodir/manifest.json" w
              ["alpha.toml"; "gamma.toml"]) as [_ Hmissing].
  { vm_compute. reflexivity. }
  { discriminate. }
  { vm_compute. reflexivity. }
  { repeat constructor; vm_compute; eauto. }
  { vm_compute. reflexivity. }
  split.
  - rewrite Hwritten by (vm_compute; reflexivity). vm_compute. reflexivity.
  - rewrite (Hmissing (SystemError "ENOENT" "no such file or directory" "open"
                         "/nodir/manifest.json")) by (vm_compute; reflexivity).
    vm_compute. reflexivity.
Defined.

Lemma resolution_never_fails_witness :
  let w := Fixture.world [] [] in
  ∃ w',
    updateAll [Fixture.beta; Fixture.hostless; Fixture.alpha] w =
      (Returned [addAddonName Fixture.beta "Beta"; Fixture.hostless;
                 addAddonName (set_release (Some "v1.3.0") Fixture.alpha) "Alpha"],
       w') ∧
    files w' = files w.
Proof.
  intros w.
  destruct (resolution_never_fails
              [Fixture.beta; Fixture.hostless; Fixture.alpha] w)
    as (resolved & w' & Hrun & Hlength & Hfiles & _ & Heach).
  exists w'. split; [| exact Hfiles].
  rewrite Hrun. f_equal. f_equal.
  pose proof (Heach 0 Fixture.beta eq_refl) as H0.
  pose proof (Heach 1 Fixture.hostless eq_refl) as H1.
  pose proof (Heach 2 Fixture.alpha eq_refl) as H2.
  destruct resolved as [| r0 [| r1 [| r2 [| r3 rest]]]]; try discriminate.
  simpl in H0, H1, H2. congruence.
Defined.

Lemma entry_without_package_stops_the_run_witness :
  let broken := JObj [("release", JStr "1.0.0")] in
  let text := JSON_stringify (JArr [Fixture.omega_entry; broken; Fixture.alpha_entry]) in
  let w := Fixture.world ["alpha.toml"] [("/manifest.json", File text)] in
  generateManifest "/addons" (Some "/manifest.json") w =
    (Thrown (TypeError "Cannot read properties of undefined (reading 'id')"),
     mkWorld (files w) [core_warning "Addon omega was removed from manifest!"]).
Proof.
  intros broken text w.
  rewrite (entry_without_package_stops_the_run "/addons" "/manifest.json" w
             ["alpha.toml"] text [Fixture.omega_entry] broken [Fixture.alpha_entry]).
  - vm_compute. reflexivity.
  - vm_compute. reflexivity.
  - discriminate.
  - repeat constructor; vm_compute; eauto.
  - vm_compute. reflexivity.
  - vm_compute. reflexivity.
  - vm_compute. reflexivity.
  - repeat constructor; eexists; cbv; reflexivity.
  - discriminate.
  - reflexivity.
Defined.

Lemma manifest_that_cannot_be_loaded_witness :
  let garbled := Fixture.world ["alpha.toml"] [("/manifest.json", File "{addons")] in
  let object := Fixture.world ["alpha.toml"] [("/manifest.json", File "{}")] in
  let w := Fixture.world ["alpha.toml"] [("/out", Dir [])] in
  generateManifest "/addons" (Some "/out") w =
    (Thrown (DescriptorError "EISDIR" "illegal operation on a directory" "read"),
     w) ∧
  generateManifest "/addons" (Some "/manifest.json") garbled =
    (Thrown (SyntaxError "Unexpected token in JSON"), garbled) ∧
  generateManifest "/addons" (Some "/manifest.json") object =
    (Thrown (TypeError "existingManifest is not iterable"), object).
Proof.
  intros garbled object w.
  destruct (manifest_that_cannot_be_loaded "/addons" "/out" w ["alpha.toml"])
    as (Hdirectory & _ & _).
  { vm_compute. reflexivity. }
  { discriminate. }
  { repeat constructor; vm_compute; eauto. }
  { vm_compute. reflexivity. }
  destruct (manifest_that_cannot_be_loaded "/addons" "/manifest.json" garbled
              ["alpha.toml"]) as (_ & Hsyntax & _).
  { vm_compute. reflexivity. }
  { discriminate. }
  { repeat constructor; vm_compute; eauto. }
  { vm_compute. reflexivity. }
  destruct (manifest_that_cannot_be_loaded "/addons" "/manifest.json" object
              ["alpha.toml"]) as (_ & _ & Hobject).
  { vm_compute. reflexivity. }
  { discriminate. }
  { repeat constructor; vm_compute; eauto. }
  { vm_compute. reflexivity. }
  split; [| split].
  - apply (Hdirectory []). vm_compute. reflexivity.
  - apply (Hsyntax "{addons"); vm_compute; reflexivity.
  - apply (Hobject "{}" (JObj [])); try (vm_compute; reflexivity); discriminate.
Defined.

Lemma carry_forward_keeps_the_batch_witness :
  let w := Fixture.world [] [] in
  let merged :=
    [carry (Some "1.2.0") None (Some ["Foo"]) Fixture.alpha; Fixture.beta] in
  length merged = 2 ∧
  package <$> merged = [package Fixture.alpha; package Fixture.beta] ∧
  host <$> merged = [host Fixture.alpha; host Fixture.beta] ∧
  merged !! 1 = Some Fixture.beta.
Proof.
  intros w merged.
  destruct (carry_forward_keeps_the_batch
              [Fixture.alpha_entry; Fixture.omega_entry]
              [Fixture.alpha; Fixture.beta] w merged
              (emit (core_warning "Addon omega was removed from manifest!") w))
    as (Hlength & Hpackage & Hhost & _ & Hkept).
  - vm_compute. reflexivity.
  - split; [exact Hlength |]. split; [exact Hpackage |]. split; [exact Hhost |].
    apply (Hkept 1 Fixture.beta); reflexivity.
Defined.

Lemma array_of_written_entries_round_trips_witness :
  let old :=
    [addAddonName (set_release (Some "v1.3.0") Fixture.alpha) "Alpha";
     set_prerelease (Some "v2.0.0-rc1") (addAddonName Fixture.beta "Beta")] in
  let w := Fixture.world ["alpha.toml"; "beta.toml"] [] in
  mergeExisting (addon_to_json <$> old) [Fixture.alpha; Fixture.beta] w
    = (Returned old, w).
Proof.
  intros old w.
  apply array_of_written_entries_round_trips.
  - apply NoDup_cons. split.
    + intros Hin. apply list_elem_of_singleton in Hin. discriminate Hin.
    + apply NoDup_singleton.
  - reflexivity.
Defined.

Lemma names_accumulate_without_duplicates_witness :
  let addon := set_addon_names (Some ["Foo"]) Fixture.alpha in
  let result := foldl addAddonName addon ["Bar"; "Foo"; "Bar"; "Baz"] in
  addon_names result = Some ["Foo"; "Bar"; "Baz"] ∧
  NoDup (default [] (addon_names result)) ∧
  ["Foo"] `prefix_of` default [] (addon_names result) ∧
  release result = release Fixture.alpha.
Proof.
  intros addon result.
  destruct (names_accumulate_without_duplicates addon ["Bar"; "Foo"; "Bar"; "Baz"])
    as (Hnodup & Hprefix & _ & _ & Hrelease & _).
  - apply NoDup_singleton.
  - split; [reflexivity |]. split; [exact Hnodup |]. split; [exact Hprefix |].
    exact Hrelease.
Defined.

Lemma run_catches_every_error_witness :
  let p := mkProcess (Fixture.world ["alpha.toml"] []) None in
  let message := "Input required and not supplied: addons_path" in
  run (H0 := InputFixture.inputs [("manifest_path", "/manifest.json")]) p =
    (Returned tt,
     mkProcess
       (mkWorld (files (world p)) [console_log message; core_error message None])
       (Some 1)).
Proof.
  intros p message.
  destruct (run_catches_every_error
              (H0 := InputFixture.inputs [("manifest_path", "/manifest.json")]) p)
    as [_ [(error & w & Hbody & Hrun) | [Hnot _]]].
  - rewrite Hrun. vm_compute in Hbody. injection Hbody as <- <-. reflexivity.
  - exfalso. apply (Hnot (Error message)). vm_compute. reflexivity.
Defined.

Lemma run_without_manifest_path_prints_witness :
  let p := mkProcess (Fixture.world ["alpha.toml"] []) None in
  run (H0 := InputFixture.inputs [("addons_path", "/addons")]) p =
    (Returned tt,
     mkProcess
       (mkWorld (files (world p))
          [resolve_github Fixture.alpha (JObj [("repo", JStr "acme/alpha")]);
           console_log (JSON_stringify_indented (manifest_of
             [addAddonName (set_release (Some "v1.3.0") Fixture.alpha) "Alpha"]))])
       None).
Proof.
  intros p.
  rewrite (run_without_manifest_path_prints
             (H0 := InputFixture.inputs [("addons_path", "/addons")])
             p "/addons" ["alpha.toml"]).
  - vm_compute. reflexivity.
  - reflexivity.
  - reflexivity.
  - vm_compute. reflexivity.
  - repeat constructor; vm_compute; eauto.
  - vm_compute. reflexivity.
Defined.

Lemma carry_forward_is_idempotent_witness :
  let w := Fixture.world [] [] in
  let merged :=
    [carry (Some "1.2.0") None (Some ["Foo"]) Fixture.alpha; Fixture.beta] in
  ∃ v', mergeExisting [Fixture.alpha_entry; Fixture.omega_entry] merged w
        = (Returned merged, v').
Proof.
  intros w merged.
  apply (carry_forward_is_idempotent
           [Fixture.alpha_entry; Fixture.omega_entry]
           [Fixture.alpha; Fixture.beta] w merged
           (emit (core_warning "Addon omega was removed from manifest!") w) w).
  vm_compute. reflexivity.
Defined.

(** * Two runs in a row *)

Lemma written_manifest_is_not_carried_forward_witness :
  let w := Fixture.world ["alpha.toml"] [] in
  let w' := (generateManifest "/addons" (Some "/manifest.json") w).2 in
  (generateManifest "/addons" (Some "/manifest.json") w).1 = Returned tt ∧
  files w' !! "/manifest.json" =
    Some (File (JSON_stringify (JObj [("addons", JArr [
      JObj [("package", JObj [("id", JStr "alpha"); ("name", JStr "Alpha")]);
            ("host", JObj [("github", JObj [("repo", JStr "acme/alpha")])]);
            ("release", JStr "v1.3.0");
            ("addon_names", JArr [JStr "Alpha"])]])]))) ∧
  carryForward (Some "/manifest.json") [Fixture.alpha] w' =
    (Thrown (TypeError "existingManifest is not iterable"), w') ∧
  generateManifest "/addons" (Some "/manifest.json") w' =
    (Thrown (TypeError "existingManifest is not iterable"), w').
Proof.
  intros w w'.
  destruct (written_manifest_is_not_carried_forward "/addons" "/manifest.json" w'
              ["alpha.toml"]
              [addAddonName (set_release (Some "v1.3.0") Fixture.alpha) "Alpha"]
              0 Fixture.alpha
              (addAddonName (set_release (Some "v1.3.0") Fixture.alpha) "Alpha"))
    as (Hstep & Hrun & _).
  - vm_compute. reflexivity.
  - discriminate.
  - repeat constructor; vm_compute; eauto.
  - vm_compute. reflexivity.
  - vm_compute. reflexivity.
  - vm_compute. reflexivity.
  - vm_compute. reflexivity.
  - apply list_elem_of_here.
  - reflexivity.
  - split; [vm_compute; reflexivity |]. split; [vm_compute; reflexivity |].
    split; [exact Hstep | exact Hrun].
Defined.

Lemma dropped_entry_of_written_manifest_fails_witness :
  let w := Fixture.world ["alpha.toml"; "beta.toml"] [] in
  let w1 := (generateManifest "/addons" (Some "/manifest.json") w).2 in
  let w2 :=
    mkWorld (<["/addons" := Dir ["alpha.toml"]]>
               (delete "/addons/beta.toml" (files w1)))
            (trace w1) in
  (generateManifest "/addons" (Some "/manifest.json") w).1 = Returned tt ∧
  generateManifest "/addons" (Some "/manifest.json") w2 =
    (Thrown (TypeError "existingManifest is not iterable"), w2).
Proof.
  intros w w1 w2.
  destruct (dropped_entry_of_written_manifest_fails "/addons" "/manifest.json" w2
              ["alpha.toml"]
              [addAddonName (set_release (Some "v1.3.0") Fixture.alpha) "Alpha";
               addAddonName Fixture.beta "Beta"]
              (addAddonName Fixture.beta "Beta"))
    as (Hthrown & Htrace & Hfiles).
  - vm_compute. reflexivity.
  - discriminate.
  - repeat constructor; vm_compute; eauto.
  - vm_compute. reflexivity.
  - vm_compute. reflexivity.
  - vm_compute. reflexivity.
  - apply list_elem_of_further, list_elem_of_here.
  - vm_compute. reflexivity.
  - split; [vm_compute; reflexivity |].
    destruct (generateManifest "/addons" (Some "/manifest.json") w2)
      as [outcome [fs events]].
    simpl in Hthrown, Htrace, Hfiles. by subst.
Defined.

Lemma duplicate_ids_with_written_manifest_fail_witness :
  let w := Fixture.world ["alpha.toml"] [] in
  let w1 := (generateManifest "/addons" (Some "/manifest.json") w).2 in
  let w2 :=
    mkWorld (<["/addons" := Dir ["alpha.toml"; "zeta.toml"]]>
               (<["/addons/zeta.toml" := File Fixture.alpha_copy_toml]> (files w1)))
            (trace w1) in
  (generateManifest "/addons" (Some "/manifest.json") w).1 = Returned tt ∧
  valid_configs (files w2) "/addons" ["alpha.toml"; "zeta.toml"]
    = [Fixture.alpha; Fixture.alpha_copy] ∧
  generateManifest "/addons" (Some "/manifest.json") w2 =
    (Thrown (TypeError "existingManifest is not iterable"), w2).
Proof.
  intros w w1 w2.
  destruct (duplicate_ids_with_written_manifest_fail "/addons" "/manifest.json" w2
              ["alpha.toml"; "zeta.toml"]
              [addAddonName (set_release (Some "v1.3.0") Fixture.alpha) "Alpha"]
              0 Fixture.alpha 1 Fixture.alpha_copy
              (addAddonName (set_release (Some "v1.3.0") Fixture.alpha) "Alpha"))
    as (_ & _ & Hrun).
  - vm_compute. reflexivity.
  - discriminate.
  - repeat constructor; vm_compute; eauto.
  - vm_compute. reflexivity.
  - vm_compute. reflexivity.
  - vm_compute. reflexivity.
  - split; [vm_compute; reflexivity | intros j other Hj; lia].
  - lia.
  - vm_compute. reflexivity.
  - reflexivity.
  - apply list_elem_of_here.
  - reflexivity.
  - split; [vm_compute; reflexivity |]. split; [vm_compute; reflexivity |].
    exact Hrun.
Defined.
